(** * GamePlay render-state engine: StateBlock and RenderState

    A shallow embedding of [gameplay/src/RenderState.cpp] (with the
    declarations of [RenderState.h]) and the properties of the state-block
    bit-flag algorithm, the render-state hierarchy and the auto-binding
    resolution protocol.

    Conventions of the embedding:
    - the [long] bit field [_bits] is a [Z]; the code only applies [&], [|]
      and [~] to it, written here with [Z.land], [Z.lor] and [Z.lnot];
    - a [const char*] that the code may receive as [NULL] is an
      [option string]; every other C string is a [string];
    - calls that leave the translation unit (OpenGL, [MaterialParameter],
      the registered resolver callbacks, the logging macros) are appended,
      in program order, to the [trace] of the [World];
    - [StateBlock::_defaultState] and [_customAutoBindingResolvers], the two
      static members, are fields of the [World];
    - a [RenderState*] is an address into a heap of render states; a
      [Node*] is the node it points to together with its address;
    - the conditions that [GP_ASSERT] states on names, parameters, the pass
      and [_defaultState] hold by the types of the embedding; the one it
      states on a pointer that may be [NULL], the auto-binding of
      [setParameterAutoBinding], is checked. *)

From Stdlib Require Import ZArith Bool List String Ascii Lia.
From stdpp Require Import base decidable option list gmap strings sorting.

Local Open Scope string_scope.
Local Open Scope list_scope.
Local Open Scope Z_scope.

(** ** Data model (RenderState.h) *)

(** [enum RenderState::AutoBinding]. *)
Inductive AutoBinding : Set :=
| NONE
| WORLD_MATRIX
| VIEW_MATRIX
| PROJECTION_MATRIX
| WORLD_VIEW_MATRIX
| VIEW_PROJECTION_MATRIX
| WORLD_VIEW_PROJECTION_MATRIX
| INVERSE_TRANSPOSE_WORLD_MATRIX
| INVERSE_TRANSPOSE_WORLD_VIEW_MATRIX
| CAMERA_WORLD_POSITION
| CAMERA_VIEW_POSITION
| MATRIX_PALETTE.

(** [enum RenderState::Blend]; the enumerators are the OpenGL blend factors
    (the second one is spelled [BLEN_...] in the header). *)
Inductive Blend : Set :=
| BLEND_ZERO
| BLEND_ONE
| BLEND_SRC_COLOR
| BLEN_ONE_MINUS_SRC_COLOR
| BLEND_DST_COLOR
| BLEND_ONE_MINUS_DST_COLOR
| BLEND_SRC_ALPHA
| BLEND_ONE_MINUS_SRC_ALPHA
| BLEND_DST_ALPHA
| BLEND_ONE_MINUS_DST_ALPHA
| BLEND_CONSTANT_ALPHA
| BLEND_ONE_MINUS_CONSTANT_ALPHA
| BLEND_SRC_ALPHA_SATURATE.

#[global] Instance Blend_eq_dec : EqDecision Blend.
Proof. solve_decision. Defined.

Definition Blend_eqb (a b : Blend) : bool := bool_decide (a = b).

(** The fields of [class StateBlock]. *)
Record StateBlock : Set := mkStateBlock {
  _cullFaceEnabled : bool;
  _depthTestEnabled : bool;
  _depthWriteEnabled : bool;
  _blendEnabled : bool;
  _blendSrc : Blend;
  _blendDst : Blend;
  _bits : Z
}.

(** Render state override bits (the [#define]s of RenderState.cpp). *)
Definition RS_BLEND : Z := 1.
Definition RS_BLEND_FUNC : Z := 2.
Definition RS_CULL_FACE : Z := 4.
Definition RS_DEPTH_TEST : Z := 8.
Definition RS_DEPTH_WRITE : Z := 16.

(** The C condition [(bits & mask)], true when the result is not zero. *)
Definition test (bits mask : Z) : bool := negb (Z.land bits mask =? 0).

(** Field assignments on a block. *)
Definition set_cullFaceEnabled (v : bool) (b : StateBlock) : StateBlock :=
  mkStateBlock v (_depthTestEnabled b) (_depthWriteEnabled b) (_blendEnabled b)
               (_blendSrc b) (_blendDst b) (_bits b).
Definition set_depthTestEnabled (v : bool) (b : StateBlock) : StateBlock :=
  mkStateBlock (_cullFaceEnabled b) v (_depthWriteEnabled b) (_blendEnabled b)
               (_blendSrc b) (_blendDst b) (_bits b).
Definition set_depthWriteEnabled (v : bool) (b : StateBlock) : StateBlock :=
  mkStateBlock (_cullFaceEnabled b) (_depthTestEnabled b) v (_blendEnabled b)
               (_blendSrc b) (_blendDst b) (_bits b).
Definition set_blendEnabled (v : bool) (b : StateBlock) : StateBlock :=
  mkStateBlock (_cullFaceEnabled b) (_depthTestEnabled b) (_depthWriteEnabled b) v
               (_blendSrc b) (_blendDst b) (_bits b).
Definition set_blendSrc (v : Blend) (b : StateBlock) : StateBlock :=
  mkStateBlock (_cullFaceEnabled b) (_depthTestEnabled b) (_depthWriteEnabled b)
               (_blendEnabled b) v (_blendDst b) (_bits b).
Definition set_blendDst (v : Blend) (b : StateBlock) : StateBlock :=
  mkStateBlock (_cullFaceEnabled b) (_depthTestEnabled b) (_depthWriteEnabled b)
               (_blendEnabled b) (_blendSrc b) v (_bits b).
Definition set_bits (v : Z) (b : StateBlock) : StateBlock :=
  mkStateBlock (_cullFaceEnabled b) (_depthTestEnabled b) (_depthWriteEnabled b)
               (_blendEnabled b) (_blendSrc b) (_blendDst b) v.

(** [_bits &= ~mask] and [_bits |= mask]. *)
Definition clear_bit (mask : Z) (b : StateBlock) : StateBlock :=
  set_bits (Z.land (_bits b) (Z.lnot mask)) b.
Definition raise_bit (mask : Z) (b : StateBlock) : StateBlock :=
  set_bits (Z.lor (_bits b) mask) b.

(** *** Collaborators outside RenderState.cpp *)

(** [MeshSkin], [Model] and [Node] as far as [applyAutoBinding] looks at
    them: a node has an identity and an optional model, a model an optional
    skin. *)
Record MeshSkin : Set := mkMeshSkin { skin_address : nat }.
Record Model : Set := mkModel { getSkin : option MeshSkin }.
Record Node : Set := mkNode { node_address : nat; getModel : option Model }.

#[global] Instance MeshSkin_eq_dec : EqDecision MeshSkin.
Proof. solve_decision. Defined.
#[global] Instance Model_eq_dec : EqDecision Model.
Proof. solve_decision. Defined.
#[global] Instance Node_eq_dec : EqDecision Node.
Proof. solve_decision. Defined.

(** The member functions of [Node] that the built-in bindings take the
    address of. *)
Inductive NodeGetter : Set :=
| getWorldMatrix
| getViewMatrix
| getProjectionMatrix
| getWorldViewMatrix
| getViewProjectionMatrix
| getWorldViewProjectionMatrix
| getInverseTransposeWorldMatrix
| getInverseTransposeWorldViewMatrix
| getActiveCameraTranslationWorld
| getActiveCameraTranslationView.

(** A [MaterialParameter] is known to this file by its name only; what it
    stores lives in MaterialParameter.cpp. *)
Record MaterialParameter : Set := mkMaterialParameter { getName : string }.

(** [Effect] and [Pass], as far as [RenderState::bind] uses them. *)
Record Effect : Set := mkEffect { effect_address : nat }.
Record Pass : Set := mkPass { getEffect : Effect }.

(** The argument of [glEnable] and [glDisable]. *)
Inductive GLcap : Set := GL_BLEND | GL_CULL_FACE | GL_DEPTH_TEST.

(** What [MaterialParameter::bindValue] is handed: a node (possibly [NULL])
    with one of its getters, or a skin with its matrix palette getters. *)
Inductive BoundAccessor : Set :=
| NodeMethod (object : option Node) (getter : NodeGetter)
| SkinMatrixPalette (skin : MeshSkin).

(** External calls, in the order the program makes them. *)
Inductive Event : Set :=
| glEnable (cap : GLcap)
| glDisable (cap : GLcap)
| glBlendFunc (sfactor dfactor : Blend)
| glDepthMask (flag : bool)
| MaterialParameter_bind (param : MaterialParameter) (effect : Effect)
| MaterialParameter_bindValue (param : MaterialParameter) (accessor : BoundAccessor)
| ResolverCalled (index : nat) (autoBinding : option string) (node : option Node)
                 (param : MaterialParameter)
| GP_WARN (message : string)
| GP_ERROR (message : string).

(** [typedef bool ( *ResolveAutoBindingCallback)(const char*, Node*, MaterialParameter* )];
    the call itself is recorded as [ResolverCalled]. *)
Definition ResolveAutoBindingCallback : Type :=
  option string -> option Node -> MaterialParameter -> bool.

(** The process-wide state: the two static members and the calls made so
    far.  [_defaultState] is the block [RenderState::initialize] created. *)
Record World : Type := mkWorld {
  _defaultState : StateBlock;
  _customAutoBindingResolvers : list ResolveAutoBindingCallback;
  trace : list Event
}.

Definition emit (e : Event) (w : World) : World :=
  mkWorld (_defaultState w) (_customAutoBindingResolvers w) (trace w ++ [e]).

Definition update_default (f : StateBlock -> StateBlock) (w : World) : World :=
  mkWorld (f (_defaultState w)) (_customAutoBindingResolvers w) (trace w).

(** ** StateBlock (RenderState.cpp, lines 356-652) *)

(** [StateBlock::StateBlock()], reached through [StateBlock::create()]. *)
Definition create : StateBlock :=
  mkStateBlock false false false false BLEND_ONE BLEND_ZERO 0.

(** *** Setters *)

Definition setBlend (enabled : bool) (this : StateBlock) : StateBlock :=
  let this := set_blendEnabled enabled this in
  if negb enabled then clear_bit RS_BLEND this else raise_bit RS_BLEND this.

Definition setBlendSrc (blend : Blend) (this : StateBlock) : StateBlock :=
  let this := set_blendSrc blend this in
  if Blend_eqb (_blendSrc this) BLEND_ONE && Blend_eqb (_blendDst this) BLEND_ZERO
  then clear_bit RS_BLEND_FUNC this
  else raise_bit RS_BLEND_FUNC this.

Definition setBlendDst (blend : Blend) (this : StateBlock) : StateBlock :=
  let this := set_blendDst blend this in
  if Blend_eqb (_blendSrc this) BLEND_ONE && Blend_eqb (_blendDst this) BLEND_ZERO
  then clear_bit RS_BLEND_FUNC this
  else raise_bit RS_BLEND_FUNC this.

Definition setCullFace (enabled : bool) (this : StateBlock) : StateBlock :=
  let this := set_cullFaceEnabled enabled this in
  if negb enabled then clear_bit RS_CULL_FACE this else raise_bit RS_CULL_FACE this.

Definition setDepthTest (enabled : bool) (this : StateBlock) : StateBlock :=
  let this := set_depthTestEnabled enabled this in
  if negb enabled then clear_bit RS_DEPTH_TEST this else raise_bit RS_DEPTH_TEST this.

Definition setDepthWrite (enabled : bool) (this : StateBlock) : StateBlock :=
  let this := set_depthWriteEnabled enabled this in
  if enabled then clear_bit RS_DEPTH_WRITE this else raise_bit RS_DEPTH_WRITE this.

(** *** Binding and restoring *)

(** The five guarded blocks of [StateBlock::bindNoRestore()], in program
    order: each compares one state of [this] with [_defaultState]. *)
Definition bindNoRestore_BLEND (this : StateBlock) (w : World) : World :=
  if test (_bits this) RS_BLEND
     && negb (eqb (_blendEnabled this) (_blendEnabled (_defaultState w)))
  then
    let w := if _blendEnabled this then emit (glEnable GL_BLEND) w
             else emit (glDisable GL_BLEND) w in
    update_default (set_blendEnabled (_blendEnabled this)) w
  else w.

Definition bindNoRestore_BLEND_FUNC (this : StateBlock) (w : World) : World :=
  if test (_bits this) RS_BLEND_FUNC
     && (negb (Blend_eqb (_blendSrc this) (_blendSrc (_defaultState w)))
         || negb (Blend_eqb (_blendDst this) (_blendDst (_defaultState w))))
  then
    let w := emit (glBlendFunc (_blendSrc this) (_blendDst this)) w in
    let w := update_default (set_blendSrc (_blendSrc this)) w in
    update_default (set_blendDst (_blendDst this)) w
  else w.

Definition bindNoRestore_CULL_FACE (this : StateBlock) (w : World) : World :=
  if test (_bits this) RS_CULL_FACE
     && negb (eqb (_cullFaceEnabled this) (_cullFaceEnabled (_defaultState w)))
  then
    let w := if _cullFaceEnabled this then emit (glEnable GL_CULL_FACE) w
             else emit (glDisable GL_CULL_FACE) w in
    update_default (set_cullFaceEnabled (_cullFaceEnabled this)) w
  else w.

Definition bindNoRestore_DEPTH_TEST (this : StateBlock) (w : World) : World :=
  if test (_bits this) RS_DEPTH_TEST
     && negb (eqb (_depthTestEnabled this) (_depthTestEnabled (_defaultState w)))
  then
    let w := if _depthTestEnabled this then emit (glEnable GL_DEPTH_TEST) w
             else emit (glDisable GL_DEPTH_TEST) w in
    update_default (set_depthTestEnabled (_depthTestEnabled this)) w
  else w.

Definition bindNoRestore_DEPTH_WRITE (this : StateBlock) (w : World) : World :=
  if test (_bits this) RS_DEPTH_WRITE
     && negb (eqb (_depthWriteEnabled this) (_depthWriteEnabled (_defaultState w)))
  then
    let w := emit (glDepthMask (if _depthWriteEnabled this then true else false)) w in
    update_default (set_depthWriteEnabled (_depthWriteEnabled this)) w
  else w.

(** [StateBlock::bindNoRestore()]: the five blocks, then
    [_defaultState->_bits |= _bits]. *)
Definition bindNoRestore (this : StateBlock) (w : World) : World :=
  let w := bindNoRestore_BLEND this w in
  let w := bindNoRestore_BLEND_FUNC this w in
  let w := bindNoRestore_CULL_FACE this w in
  let w := bindNoRestore_DEPTH_TEST this w in
  let w := bindNoRestore_DEPTH_WRITE this w in
  update_default (fun d => set_bits (Z.lor (_bits d) (_bits this)) d) w.

(** The five guarded blocks of [StateBlock::restore], in program order. *)
Definition restore_BLEND (stateOverrideBits : Z) (w : World) : World :=
  if negb (test stateOverrideBits RS_BLEND) && test (_bits (_defaultState w)) RS_BLEND
  then
    let w := emit (glDisable GL_BLEND) w in
    let w := update_default (clear_bit RS_BLEND) w in
    update_default (set_blendEnabled false) w
  else w.

Definition restore_BLEND_FUNC (stateOverrideBits : Z) (w : World) : World :=
  if negb (test stateOverrideBits RS_BLEND_FUNC)
     && test (_bits (_defaultState w)) RS_BLEND_FUNC
  then
    let w := emit (glBlendFunc BLEND_ONE BLEND_ZERO) w in
    let w := update_default (clear_bit RS_BLEND_FUNC) w in
    let w := update_default (set_blendSrc BLEND_ONE) w in
    update_default (set_blendDst BLEND_ZERO) w
  else w.

Definition restore_CULL_FACE (stateOverrideBits : Z) (w : World) : World :=
  if negb (test stateOverrideBits RS_CULL_FACE)
     && test (_bits (_defaultState w)) RS_CULL_FACE
  then
    let w := emit (glDisable GL_CULL_FACE) w in
    let w := update_default (clear_bit RS_CULL_FACE) w in
    update_default (set_cullFaceEnabled false) w
  else w.

Definition restore_DEPTH_TEST (stateOverrideBits : Z) (w : World) : World :=
  if negb (test stateOverrideBits RS_DEPTH_TEST)
     && test (_bits (_defaultState w)) RS_DEPTH_TEST
  then
    let w := emit (glDisable GL_DEPTH_TEST) w in
    let w := update_default (clear_bit RS_DEPTH_TEST) w in
    update_default (set_depthTestEnabled false) w
  else w.

Definition restore_DEPTH_WRITE (stateOverrideBits : Z) (w : World) : World :=
  if negb (test stateOverrideBits RS_DEPTH_WRITE)
     && test (_bits (_defaultState w)) RS_DEPTH_WRITE
  then
    let w := emit (glDepthMask true) w in
    let w := update_default (clear_bit RS_DEPTH_WRITE) w in
    update_default (set_depthWriteEnabled true) w
  else w.

(** [StateBlock::restore(long stateOverrideBits)]: nothing to do when
    [_defaultState->_bits] is zero, the five blocks otherwise. *)
Definition restore (stateOverrideBits : Z) (w : World) : World :=
  if _bits (_defaultState w) =? 0 then w
  else
    let w := restore_BLEND stateOverrideBits w in
    let w := restore_BLEND_FUNC stateOverrideBits w in
    let w := restore_CULL_FACE stateOverrideBits w in
    let w := restore_DEPTH_TEST stateOverrideBits w in
    let w := restore_DEPTH_WRITE stateOverrideBits w in
    w.

(** [StateBlock::bind()]. *)
Definition StateBlock_bind (this : StateBlock) (w : World) : World :=
  let w := restore (_bits this) w in
  bindNoRestore this w.

(** [StateBlock::enableDepthWrite()]. *)
Definition enableDepthWrite (w : World) : World :=
  if negb (_depthWriteEnabled (_defaultState w))
  then
    let w := emit (glDepthMask true) w in
    let w := update_default (clear_bit RS_DEPTH_WRITE) w in
    update_default (set_depthWriteEnabled true) w
  else w.

(** *** String-driven configuration *)

(** Modelled from the spec: the logging macros [GP_WARN] and [GP_ERROR]
    come from Base.h, which is not among the sources.  Following the
    specification (a warning or configuration error is reported on the
    warning/error channel and execution continues) each of them records its
    format string and returns.  The message of [parseBlend] itself says that
    its default applies "if errors are treated as warnings". *)
Definition report_warning (message : string) (w : World) : World :=
  emit (GP_WARN message) w.
Definition report_error (message : string) (w : World) : World :=
  emit (GP_ERROR message) w.

(** [tolower] and [toupper] of the C locale. *)
Definition tolower (c : ascii) : ascii :=
  let n := nat_of_ascii c in
  if ((65 <=? n) && (n <=? 90))%nat then ascii_of_nat (n + 32) else c.

Definition toupper (c : ascii) : ascii :=
  let n := nat_of_ascii c in
  if ((97 <=? n) && (n <=? 122))%nat then ascii_of_nat (n - 32) else c.

(** [std::transform(s.begin(), s.end(), s.begin(), f)]. *)
Fixpoint transform (f : ascii -> ascii) (s : string) : string :=
  match s with
  | EmptyString => EmptyString
  | String c s => String (f c) (transform f s)
  end.

(** [static bool parseBoolean(const char* value)]. *)
Definition parseBoolean (value : string) : bool :=
  match value with
  | String v0 (String v1 (String v2 (String v3 EmptyString))) =>
      Ascii.eqb (tolower v0) "t" && Ascii.eqb (tolower v1) "r"
      && Ascii.eqb (tolower v2) "u" && Ascii.eqb (tolower v3) "e"
  | _ => false
  end.

(** [static RenderState::Blend parseBlend(const char* value)]. *)
Definition parseBlend (value : string) (w : World) : Blend * World :=
  let upper := transform toupper value in
  if String.eqb upper "ZERO" then (BLEND_ZERO, w)
  else if String.eqb upper "ONE" then (BLEND_ONE, w)
  else if String.eqb upper "SRC_ALPHA" then (BLEND_SRC_ALPHA, w)
  else if String.eqb upper "ONE_MINUS_SRC_ALPHA" then (BLEND_ONE_MINUS_SRC_ALPHA, w)
  else if String.eqb upper "DST_ALPHA" then (BLEND_DST_ALPHA, w)
  else if String.eqb upper "ONE_MINUS_DST_ALPHA" then (BLEND_ONE_MINUS_DST_ALPHA, w)
  else if String.eqb upper "CONSTANT_ALPHA" then (BLEND_CONSTANT_ALPHA, w)
  else if String.eqb upper "ONE_MINUS_CONSTANT_ALPHA"
       then (BLEND_ONE_MINUS_CONSTANT_ALPHA, w)
  else if String.eqb upper "SRC_ALPHA_SATURATE" then (BLEND_SRC_ALPHA_SATURATE, w)
  else
    let w := report_error
      "Unsupported blend value (%s). (Will default to BLEND_ONE if errors are treated as warnings)"
      w in
    (BLEND_ONE, w).

(** [StateBlock::setState(const char* name, const char* value)]. *)
Definition setState (name value : string) (this : StateBlock) (w : World)
  : StateBlock * World :=
  if String.eqb name "blend" then
    (setBlend (parseBoolean value) this, w)
  else if String.eqb name "blendSrc" || String.eqb name "srcBlend" then
    let '(blend, w) := parseBlend value w in (setBlendSrc blend this, w)
  else if String.eqb name "blendDst" || String.eqb name "dstBlend" then
    let '(blend, w) := parseBlend value w in (setBlendDst blend this, w)
  else if String.eqb name "cullFace" then
    (setCullFace (parseBoolean value) this, w)
  else if String.eqb name "depthTest" then
    (setDepthTest (parseBoolean value) this, w)
  else if String.eqb name "depthWrite" then
    (setDepthWrite (parseBoolean value) this, w)
  else
    (this, report_error "Unsupported render state string '%s'." w).

(** ** RenderState (RenderState.cpp, lines 21-354) *)

(** A [RenderState*]; [NULL] is [None] at the places that hold one. *)
Definition addr : Set := nat.

(** The fields of [class RenderState].  [_state] holds the block the
    pointer refers to: [RenderState] only reads it. *)
Record RenderState : Type := mkRenderState {
  _parameters : list MaterialParameter;
  _autoBindings : gmap string string;
  _nodeBinding : option Node;
  _state : option StateBlock;
  _parent : option addr
}.

Definition set_parameters (v : list MaterialParameter) (r : RenderState) : RenderState :=
  mkRenderState v (_autoBindings r) (_nodeBinding r) (_state r) (_parent r).
Definition set_autoBindings (v : gmap string string) (r : RenderState) : RenderState :=
  mkRenderState (_parameters r) v (_nodeBinding r) (_state r) (_parent r).
Definition set_nodeBinding (v : option Node) (r : RenderState) : RenderState :=
  mkRenderState (_parameters r) (_autoBindings r) v (_state r) (_parent r).

(** [RenderState::RenderState()]. *)
Definition RenderState_new : RenderState :=
  mkRenderState [] ∅ None None None.

(** How a call ends.  [Fault] is a call that does not return normally:
    undefined behaviour of the C++ code (a null or dangling pointer is
    dereferenced or handed to [strcmp]) or a violated assertion; it carries
    the state reached.  [OutOfFuel] belongs to the model only: the loops
    over [_parent] take a bound on their iterations. *)
Inductive Outcome (A : Type) : Type :=
| Returned (a : A) (w : World)
| Fault (w : World)
| OutOfFuel.
Arguments Returned {A} a w.
Arguments Fault {A} w.
Arguments OutOfFuel {A}.

(** The state-and-failure monad of the [RenderState] member functions. *)
Definition M (A : Type) : Type := World -> Outcome A.

Definition ret {A} (a : A) : M A := fun w => Returned a w.
Definition andThen {A B} (m : M A) (k : A -> M B) : M B :=
  fun w => match m w with
           | Returned a w' => k a w'
           | Fault w' => Fault w'
           | OutOfFuel => OutOfFuel
           end.
Definition lift (f : World -> World) : M unit := fun w => Returned tt (f w).
Definition fault {A} : M A := fun w => Fault w.
Definition out_of_fuel {A} : M A := fun _ => OutOfFuel.

Notation "x <- m ;; k" := (andThen m (fun x => k))
  (at level 65, m at level 64, right associativity).
Notation "m ;;; k" := (andThen m (fun _ => k))
  (at level 65, right associativity).

(** A pointer used as a condition: [p] stands for [p != NULL]. *)
Definition non_null {A} (p : option A) : bool :=
  match p with
  | Some _ => true
  | None => false
  end.

(** Modelled from the spec: the macro [GP_ASSERT] comes from Base.h, which
    is not among the sources.  Following the specification (a null or absent
    required argument is a programming error, asserted at the boundary and
    not recoverable) a violated assertion ends the call there: it does not
    return. *)
Definition GP_ASSERT (expression : bool) : M unit :=
  if expression then ret tt else fault.

(** [RenderState::registerAutoBindingResolver]. *)
Definition registerAutoBindingResolver (callback : ResolveAutoBindingCallback)
  (w : World) : World :=
  mkWorld (_defaultState w) (_customAutoBindingResolvers w ++ [callback]) (trace w).

(** The search loop of [RenderState::getParameter]. *)
Fixpoint find_parameter (name : string) (parameters : list MaterialParameter)
  : option MaterialParameter :=
  match parameters with
  | [] => None
  | param :: rest =>
      if String.eqb (getName param) name then Some param
      else find_parameter name rest
  end.

(** [RenderState::getParameter(const char* name)]; [_parameters] is
    [mutable], so the render state is returned as well. *)
Definition getParameter (name : string) (this : RenderState)
  : MaterialParameter * RenderState :=
  match find_parameter name (_parameters this) with
  | Some param => (param, this)
  | None =>
      let param := mkMaterialParameter name in
      (param, set_parameters (_parameters this ++ [param]) this)
  end.

(** [autoBindingToString]; [NULL] is [None]. *)
Definition autoBindingToString (autoBinding : AutoBinding) : option string :=
  match autoBinding with
  | NONE => None
  | VIEW_MATRIX => Some "VIEW_MATRIX"
  | PROJECTION_MATRIX => Some "PROJECTION_MATRIX"
  | WORLD_VIEW_MATRIX => Some "WORLD_VIEW_MATRIX"
  | VIEW_PROJECTION_MATRIX => Some "VIEW_PROJECTION_MATRIX"
  | WORLD_VIEW_PROJECTION_MATRIX => Some "WORLD_VIEW_PROJECTION_MATRIX"
  | INVERSE_TRANSPOSE_WORLD_MATRIX => Some "INVERSE_TRANSPOSE_WORLD_MATRIX"
  | INVERSE_TRANSPOSE_WORLD_VIEW_MATRIX => Some "INVERSE_TRANSPOSE_WORLD_VIEW_MATRIX"
  | CAMERA_WORLD_POSITION => Some "CAMERA_WORLD_POSITION"
  | CAMERA_VIEW_POSITION => Some "CAMERA_VIEW_POSITION"
  | MATRIX_PALETTE => Some "MATRIX_PALETTE"
  | _ => Some ""
  end.

(** The loop of [applyAutoBinding] over [_customAutoBindingResolvers]; the
    result tells whether a resolver returned [true]. *)
Fixpoint callResolvers (i : nat) (resolvers : list ResolveAutoBindingCallback)
  (autoBinding : option string) (node : option Node) (param : MaterialParameter)
  (w : World) : bool * World :=
  match resolvers with
  | [] => (false, w)
  | resolver :: rest =>
      let w := emit (ResolverCalled i autoBinding node param) w in
      if resolver autoBinding node param then (true, w)
      else callResolvers (S i) rest autoBinding node param w
  end.

(** [param->bindValue(object, getter)]; MaterialParameter.cpp is not among
    the sources, so the call is recorded and not interpreted. *)
Definition bindValue (param : MaterialParameter) (accessor : BoundAccessor) (w : World)
  : World :=
  emit (MaterialParameter_bindValue param accessor) w.

(** [RenderState::applyAutoBinding(uniformName, autoBinding)]. *)
Definition applyAutoBinding (uniformName : string) (autoBinding : option string)
  (this : RenderState) : M RenderState := fun w =>
  let '(param, this) := getParameter uniformName this in
  let '(handled, w) :=
    callResolvers 0 (_customAutoBindingResolvers w) autoBinding (_nodeBinding this)
                  param w in
  if handled then Returned this w
  else
    match autoBinding with
    | None => Fault w
    | Some autoBinding =>
      if String.eqb autoBinding "WORLD_MATRIX" then
        Returned this (bindValue param (NodeMethod (_nodeBinding this) getWorldMatrix) w)
      else if String.eqb autoBinding "VIEW_MATRIX" then
        Returned this (bindValue param (NodeMethod (_nodeBinding this) getViewMatrix) w)
      else if String.eqb autoBinding "PROJECTION_MATRIX" then
        Returned this
          (bindValue param (NodeMethod (_nodeBinding this) getProjectionMatrix) w)
      else if String.eqb autoBinding "WORLD_VIEW_MATRIX" then
        Returned this
          (bindValue param (NodeMethod (_nodeBinding this) getWorldViewMatrix) w)
      else if String.eqb autoBinding "VIEW_PROJECTION_MATRIX" then
        Returned this
          (bindValue param (NodeMethod (_nodeBinding this) getViewProjectionMatrix) w)
      else if String.eqb autoBinding "WORLD_VIEW_PROJECTION_MATRIX" then
        Returned this
          (bindValue param
             (NodeMethod (_nodeBinding this) getWorldViewProjectionMatrix) w)
      else if String.eqb autoBinding "INVERSE_TRANSPOSE_WORLD_MATRIX" then
        Returned this
          (bindValue param
             (NodeMethod (_nodeBinding this) getInverseTransposeWorldMatrix) w)
      else if String.eqb autoBinding "INVERSE_TRANSPOSE_WORLD_VIEW_MATRIX" then
        Returned this
          (bindValue param
             (NodeMethod (_nodeBinding this) getInverseTransposeWorldViewMatrix) w)
      else if String.eqb autoBinding "CAMERA_WORLD_POSITION" then
        Returned this
          (bindValue param
             (NodeMethod (_nodeBinding this) getActiveCameraTranslationWorld) w)
      else if String.eqb autoBinding "CAMERA_VIEW_POSITION" then
        Returned this
          (bindValue param
             (NodeMethod (_nodeBinding this) getActiveCameraTranslationView) w)
      else if String.eqb autoBinding "MATRIX_PALETTE" then
        match _nodeBinding this with
        | None => Fault w
        | Some node =>
            let model := getModel node in
            let skin := match model with
                        | Some model => getSkin model
                        | None => None
                        end in
            match skin with
            | Some skin => Returned this (bindValue param (SkinMatrixPalette skin) w)
            | None => Returned this w
            end
        end
      else
        Returned this (report_warning "Unsupported auto binding type (%d)." w)
    end.

(** [RenderState::setParameterAutoBinding(const char* name, const char* autoBinding)].
    [GP_ASSERT(name)] holds by the type of [name].  The code asserts
    [autoBinding] and tests [autoBinding == NULL] right after: the branch
    that removes an entry is there, and is reached by no call that passes
    the assertion. *)
Definition setParameterAutoBinding (name : string) (autoBinding : option string)
  (this : RenderState) : M RenderState :=
  GP_ASSERT (non_null autoBinding) ;;;
  (let this :=
     match autoBinding with
     | None =>
         match _autoBindings this !! name with
         | Some _ => set_autoBindings (delete name (_autoBindings this)) this
         | None => this
         end
     | Some autoBinding =>
         set_autoBindings (<[name := autoBinding]> (_autoBindings this)) this
     end in
   match _nodeBinding this with
   | Some _ => applyAutoBinding name autoBinding this
   | None => ret this
   end).

(** [RenderState::setParameterAutoBinding(const char* name, AutoBinding autoBinding)]. *)
Definition setParameterAutoBinding_enum (name : string) (autoBinding : AutoBinding)
  (this : RenderState) : M RenderState :=
  setParameterAutoBinding name (autoBindingToString autoBinding) this.

(** The order of [std::map<std::string, std::string>]: keys compared as
    strings of bytes. *)
Definition key_le (x y : string * string) : Prop := String.leb (fst x) (fst y) = true.

#[global] Instance key_le_dec : RelDecision key_le.
Proof. intros x y. unfold key_le. apply _. Defined.

(** The entries of [_autoBindings] from [begin()] to [end()]. *)
Definition iterate (m : gmap string string) : list (string * string) :=
  merge_sort key_le (map_to_list m).

(** The [while (itr != _autoBindings.end())] loop of [setNodeBinding]. *)
Fixpoint applyAutoBindings (entries : list (string * string)) (this : RenderState)
  : M RenderState :=
  match entries with
  | [] => ret this
  | itr :: rest =>
      this <- applyAutoBinding (fst itr) (Some (snd itr)) this ;;
      applyAutoBindings rest this
  end.

(** [RenderState::setNodeBinding(Node* node)]. *)
Definition setNodeBinding (node : option Node) (this : RenderState) : M RenderState :=
  if bool_decide (_nodeBinding this <> node) then
    let this := set_nodeBinding node this in
    match _nodeBinding this with
    | Some _ => applyAutoBindings (iterate (_autoBindings this)) this
    | None => ret this
    end
  else ret this.

(** *** The hierarchy *)

(** [rs->...] for a [RenderState* rs] that is not [NULL]. *)
Definition deref (heap : gmap addr RenderState) (rs : addr) : M RenderState :=
  match heap !! rs with
  | Some r => ret r
  | None => fault
  end.

(** The first loop of [RenderState::bind]: [while (rs)], OR-ing the bits of
    every ancestor that has a block. *)
Fixpoint collectOverrideBits (fuel : nat) (heap : gmap addr RenderState)
  (rs : option addr) (stateOverrideBits : Z) : M Z :=
  match rs with
  | None => ret stateOverrideBits
  | Some p =>
      match fuel with
      | O => out_of_fuel
      | S fuel =>
          r <- deref heap p ;;
          let stateOverrideBits :=
            match _state r with
            | Some s => Z.lor stateOverrideBits (_bits s)
            | None => stateOverrideBits
            end in
          collectOverrideBits fuel heap (_parent r) stateOverrideBits
      end
  end.

(** The [while (rs)] loop of [RenderState::getTopmost]. *)
Fixpoint getTopmost_loop (fuel : nat) (heap : gmap addr RenderState)
  (rs : option addr) (below : option addr) : M (option addr) :=
  match rs with
  | None => ret None
  | Some p =>
      match fuel with
      | O => out_of_fuel
      | S fuel =>
          r <- deref heap p ;;
          if bool_decide (_parent r = below) || bool_decide (_parent r = None)
          then ret (Some p)
          else getTopmost_loop fuel heap (_parent r) below
      end
  end.

(** [RenderState::getTopmost(RenderState* below)], called on [this]. *)
Definition getTopmost (fuel : nat) (heap : gmap addr RenderState) (this : addr)
  (below : option addr) : M (option addr) :=
  if bool_decide (Some this = below) then ret None
  else getTopmost_loop fuel heap (Some this) below.

(** The loop over [rs->_parameters] in [RenderState::bind]. *)
Fixpoint bindParameters (parameters : list MaterialParameter) (effect : Effect)
  (w : World) : World :=
  match parameters with
  | [] => w
  | param :: rest => bindParameters rest effect (emit (MaterialParameter_bind param effect) w)
  end.

(** The second loop of [RenderState::bind]:
    [while ((rs = getTopmost(rs)))]. *)
Fixpoint bindTopDown (count fuel : nat) (heap : gmap addr RenderState) (this : addr)
  (effect : Effect) (rs : option addr) : M unit :=
  match count with
  | O => out_of_fuel
  | S count =>
      top <- getTopmost fuel heap this rs ;;
      match top with
      | None => ret tt
      | Some p =>
          r <- deref heap p ;;
          lift (bindParameters (_parameters r) effect) ;;;
          match _state r with
          | Some s => lift (bindNoRestore s)
          | None => ret tt
          end ;;;
          bindTopDown count fuel heap this effect (Some p)
      end
  end.

(** [RenderState::bind(Pass* pass)], called on [this]; [fuel] bounds the
    iterations of each of its loops. *)
Definition RenderState_bind (fuel : nat) (heap : gmap addr RenderState) (this : addr)
  (pass : Pass) : M unit :=
  r <- deref heap this ;;
  let stateOverrideBits := match _state r with
                           | Some s => _bits s
                           | None => 0
                           end in
  stateOverrideBits <- collectOverrideBits fuel heap (_parent r) stateOverrideBits ;;
  lift (restore stateOverrideBits) ;;;
  let effect := getEffect pass in
  bindTopDown fuel fuel heap this effect None.

(** ** Vocabulary of the properties *)

(** *** The five tracked states *)

Inductive TrackedState : Set := BLEND | BLEND_FUNC | CULL_FACE | DEPTH_TEST | DEPTH_WRITE.

#[global] Instance TrackedState_eq_dec : EqDecision TrackedState.
Proof. solve_decision. Defined.

(** In the order in which [restore] and [bindNoRestore] go through them. *)
Definition tracked : list TrackedState :=
  [BLEND; BLEND_FUNC; CULL_FACE; DEPTH_TEST; DEPTH_WRITE].

Definition mask (s : TrackedState) : Z :=
  match s with
  | BLEND => RS_BLEND
  | BLEND_FUNC => RS_BLEND_FUNC
  | CULL_FACE => RS_CULL_FACE
  | DEPTH_TEST => RS_DEPTH_TEST
  | DEPTH_WRITE => RS_DEPTH_WRITE
  end.

(** [mask s] is [2 ^ index s]. *)
Definition index (s : TrackedState) : Z :=
  match s with
  | BLEND => 0
  | BLEND_FUNC => 1
  | CULL_FACE => 2
  | DEPTH_TEST => 3
  | DEPTH_WRITE => 4
  end.

(** The value a block holds for a state: a toggle, or the pair of blend
    factors. *)
Inductive Setting : Set :=
| Toggle (enabled : bool)
| BlendFunc (src dst : Blend).

#[global] Instance Setting_eq_dec : EqDecision Setting.
Proof. solve_decision. Defined.

Definition setting (s : TrackedState) (b : StateBlock) : Setting :=
  match s with
  | BLEND => Toggle (_blendEnabled b)
  | BLEND_FUNC => BlendFunc (_blendSrc b) (_blendDst b)
  | CULL_FACE => Toggle (_cullFaceEnabled b)
  | DEPTH_TEST => Toggle (_depthTestEnabled b)
  | DEPTH_WRITE => Toggle (_depthWriteEnabled b)
  end.

(** The defaults [restore] goes back to. *)
Definition default_setting (s : TrackedState) : Setting :=
  match s with
  | BLEND => Toggle false
  | BLEND_FUNC => BlendFunc BLEND_ONE BLEND_ZERO
  | CULL_FACE => Toggle false
  | DEPTH_TEST => Toggle false
  | DEPTH_WRITE => Toggle true
  end.

(** The OpenGL call that puts state [s] to value [v]. *)
Definition gl_call (s : TrackedState) (v : Setting) : Event :=
  match s, v with
  | BLEND, Toggle e => if e then glEnable GL_BLEND else glDisable GL_BLEND
  | CULL_FACE, Toggle e => if e then glEnable GL_CULL_FACE else glDisable GL_CULL_FACE
  | DEPTH_TEST, Toggle e => if e then glEnable GL_DEPTH_TEST else glDisable GL_DEPTH_TEST
  | DEPTH_WRITE, Toggle e => glDepthMask e
  | _, BlendFunc src dst => glBlendFunc src dst
  | BLEND_FUNC, Toggle _ => glBlendFunc BLEND_ONE BLEND_ZERO
  end.

(** State [s] is restored: nothing about to be bound claims it, and
    [_defaultState] records it as changed. *)
Definition restored (stateOverrideBits : Z) (d : StateBlock) (s : TrackedState) : bool :=
  negb (test stateOverrideBits (mask s)) && test (_bits d) (mask s).

(** State [s] is changed by binding [this]: the block overrides it and its
    value is not the one [_defaultState] caches. *)
Definition changed (this d : StateBlock) (s : TrackedState) : bool :=
  test (_bits this) (mask s) && negb (bool_decide (setting s this = setting s d)).

(** The OpenGL calls for the states selected by [f], with the values [v], in
    program order. *)
Definition calls (f : TrackedState -> bool) (v : TrackedState -> Setting) : list Event :=
  flat_map (fun s => if f s then [gl_call s (v s)] else []) tracked.

(** Assignment of a value to the field(s) of state [s]. *)
Definition assign (s : TrackedState) (v : Setting) (d : StateBlock) : StateBlock :=
  match s, v with
  | BLEND, Toggle e => set_blendEnabled e d
  | CULL_FACE, Toggle e => set_cullFaceEnabled e d
  | DEPTH_TEST, Toggle e => set_depthTestEnabled e d
  | DEPTH_WRITE, Toggle e => set_depthWriteEnabled e d
  | BLEND_FUNC, BlendFunc src dst => set_blendDst dst (set_blendSrc src d)
  | _, _ => d
  end.

(** The guarded block of [restore], and of [bindNoRestore], for state [s],
    in one form for all five states. *)
Definition restore_step (stateOverrideBits : Z) (s : TrackedState) (w : World) : World :=
  if restored stateOverrideBits (_defaultState w) s
  then update_default (fun d => assign s (default_setting s) (clear_bit (mask s) d))
                      (emit (gl_call s (default_setting s)) w)
  else w.

Definition bind_step (this : StateBlock) (s : TrackedState) (w : World) : World :=
  if changed this (_defaultState w) s
  then update_default (assign s (setting s this)) (emit (gl_call s (setting s this)) w)
  else w.

(** *** Sequences of setter calls *)

Inductive SetterCall : Set :=
| call_setBlend (enabled : bool)
| call_setBlendSrc (blend : Blend)
| call_setBlendDst (blend : Blend)
| call_setCullFace (enabled : bool)
| call_setDepthTest (enabled : bool)
| call_setDepthWrite (enabled : bool).

Definition perform (this : StateBlock) (c : SetterCall) : StateBlock :=
  match c with
  | call_setBlend e => setBlend e this
  | call_setBlendSrc v => setBlendSrc v this
  | call_setBlendDst v => setBlendDst v this
  | call_setCullFace e => setCullFace e this
  | call_setDepthTest e => setDepthTest e this
  | call_setDepthWrite e => setDepthWrite e this
  end.

(** The state whose bit a setter maintains. *)
Definition governs (c : SetterCall) : TrackedState :=
  match c with
  | call_setBlend _ => BLEND
  | call_setBlendSrc _ | call_setBlendDst _ => BLEND_FUNC
  | call_setCullFace _ => CULL_FACE
  | call_setDepthTest _ => DEPTH_TEST
  | call_setDepthWrite _ => DEPTH_WRITE
  end.

(** The bit of [s] is set exactly when the field holds a non-default
    value. *)
Definition bit_reflects (s : TrackedState) (b : StateBlock) : Prop :=
  test (_bits b) (mask s) = true <-> setting s b <> default_setting s.

(** *** Auto-binding resolution *)

Definition append_events (events : list Event) (w : World) : World :=
  mkWorld (_defaultState w) (_customAutoBindingResolvers w) (trace w ++ events).

(** Lookup by exact (case-sensitive) name in a table. *)
Fixpoint table_lookup {A} (name : string) (table : list (string * A)) : option A :=
  match table with
  | [] => None
  | (key, v) :: rest => if String.eqb name key then Some v else table_lookup name rest
  end.

(** The built-in table, as the specification lists it: the names that map
    to an accessor of the node. *)
Definition builtin_table : list (string * NodeGetter) :=
  [ ("WORLD_MATRIX", getWorldMatrix);
    ("VIEW_MATRIX", getViewMatrix);
    ("PROJECTION_MATRIX", getProjectionMatrix);
    ("WORLD_VIEW_MATRIX", getWorldViewMatrix);
    ("VIEW_PROJECTION_MATRIX", getViewProjectionMatrix);
    ("WORLD_VIEW_PROJECTION_MATRIX", getWorldViewProjectionMatrix);
    ("INVERSE_TRANSPOSE_WORLD_MATRIX", getInverseTransposeWorldMatrix);
    ("INVERSE_TRANSPOSE_WORLD_VIEW_MATRIX", getInverseTransposeWorldViewMatrix);
    ("CAMERA_WORLD_POSITION", getActiveCameraTranslationWorld);
    ("CAMERA_VIEW_POSITION", getActiveCameraTranslationView) ].

(** [node->getModel() ? node->getModel()->getSkin() : NULL]. *)
Definition skin_of (node : Node) : option MeshSkin :=
  match getModel node with
  | Some model => getSkin model
  | None => None
  end.

(** What built-in resolution does for a name, as the specification words
    it: an accessor of the node for a name of the table, the palette of the
    skin (if there is one) for MATRIX_PALETTE, a warning otherwise. *)
Definition builtin_events (node : Node) (param : MaterialParameter) (autoBinding : string)
  : list Event :=
  match table_lookup autoBinding builtin_table with
  | Some getter => [MaterialParameter_bindValue param (NodeMethod (Some node) getter)]
  | None =>
      if String.eqb autoBinding "MATRIX_PALETTE" then
        match skin_of node with
        | Some skin => [MaterialParameter_bindValue param (SkinMatrixPalette skin)]
        | None => []
        end
      else [GP_WARN "Unsupported auto binding type (%d)."]
  end.

(** The position of the first registered resolver that returns [true]. *)
Fixpoint first_handler (resolvers : list ResolveAutoBindingCallback)
  (autoBinding : option string) (node : option Node) (param : MaterialParameter)
  : option nat :=
  match resolvers with
  | [] => None
  | resolver :: rest =>
      if resolver autoBinding node param then Some O
      else option_map S (first_handler rest autoBinding node param)
  end.

(** The resolver calls numbered [i], ..., [i + n - 1]. *)
Definition consulted (i n : nat) (autoBinding : option string) (node : option Node)
  (param : MaterialParameter) : list Event :=
  map (fun j => ResolverCalled j autoBinding node param) (seq i n).

(** All the external calls of one resolution of [autoBinding] for the
    uniform [uniformName] against [node]. *)
Definition resolution_events (resolvers : list ResolveAutoBindingCallback) (node : Node)
  (uniformName autoBinding : string) : list Event :=
  let param := mkMaterialParameter uniformName in
  match first_handler resolvers (Some autoBinding) (Some node) param with
  | Some k => consulted 0 (S k) (Some autoBinding) (Some node) param
  | None => consulted 0 (length resolvers) (Some autoBinding) (Some node) param
            ++ builtin_events node param autoBinding
  end.

(** The render state after [getParameter] was called for the name of each
    entry in turn. *)
Definition with_parameters (entries : list (string * string)) (this : RenderState)
  : RenderState :=
  fold_left (fun r itr => snd (getParameter (fst itr) r)) entries this.

(** The spelled-out name of an enumeration constant. *)
Definition AutoBinding_name (a : AutoBinding) : string :=
  match a with
  | NONE => "NONE"
  | WORLD_MATRIX => "WORLD_MATRIX"
  | VIEW_MATRIX => "VIEW_MATRIX"
  | PROJECTION_MATRIX => "PROJECTION_MATRIX"
  | WORLD_VIEW_MATRIX => "WORLD_VIEW_MATRIX"
  | VIEW_PROJECTION_MATRIX => "VIEW_PROJECTION_MATRIX"
  | WORLD_VIEW_PROJECTION_MATRIX => "WORLD_VIEW_PROJECTION_MATRIX"
  | INVERSE_TRANSPOSE_WORLD_MATRIX => "INVERSE_TRANSPOSE_WORLD_MATRIX"
  | INVERSE_TRANSPOSE_WORLD_VIEW_MATRIX => "INVERSE_TRANSPOSE_WORLD_VIEW_MATRIX"
  | CAMERA_WORLD_POSITION => "CAMERA_WORLD_POSITION"
  | CAMERA_VIEW_POSITION => "CAMERA_VIEW_POSITION"
  | MATRIX_PALETTE => "MATRIX_PALETTE"
  end.

(** *** The vocabulary of [setState], as the specification lists it *)

Inductive StateName : Set :=
| name_blend
| name_blendSrc
| name_blendDst
| name_cullFace
| name_depthTest
| name_depthWrite.

Definition state_vocabulary : list (string * StateName) :=
  [ ("blend", name_blend);
    ("blendSrc", name_blendSrc); ("srcBlend", name_blendSrc);
    ("blendDst", name_blendDst); ("dstBlend", name_blendDst);
    ("cullFace", name_cullFace);
    ("depthTest", name_depthTest);
    ("depthWrite", name_depthWrite) ].

Definition blend_vocabulary : list (string * Blend) :=
  [ ("ZERO", BLEND_ZERO);
    ("ONE", BLEND_ONE);
    ("SRC_ALPHA", BLEND_SRC_ALPHA);
    ("ONE_MINUS_SRC_ALPHA", BLEND_ONE_MINUS_SRC_ALPHA);
    ("DST_ALPHA", BLEND_DST_ALPHA);
    ("ONE_MINUS_DST_ALPHA", BLEND_ONE_MINUS_DST_ALPHA);
    ("CONSTANT_ALPHA", BLEND_CONSTANT_ALPHA);
    ("ONE_MINUS_CONSTANT_ALPHA", BLEND_ONE_MINUS_CONSTANT_ALPHA);
    ("SRC_ALPHA_SATURATE", BLEND_SRC_ALPHA_SATURATE) ].

(** The setter a recognised state name stands for, applied to the parsed
    value. *)
Definition configure (k : StateName) (value : string) (this : StateBlock) (w : World)
  : StateBlock * World :=
  match k with
  | name_blend => (setBlend (parseBoolean value) this, w)
  | name_blendSrc => (setBlendSrc (fst (parseBlend value w)) this, snd (parseBlend value w))
  | name_blendDst => (setBlendDst (fst (parseBlend value w)) this, snd (parseBlend value w))
  | name_cullFace => (setCullFace (parseBoolean value) this, w)
  | name_depthTest => (setDepthTest (parseBoolean value) this, w)
  | name_depthWrite => (setDepthWrite (parseBoolean value) this, w)
  end.

(** *** The hierarchy *)

(** [chain heap p levels]: following [_parent] from [p] reaches [NULL]
    after finitely many steps; [levels] lists the render states met, [p]
    first and the root last, each with its address. *)
Inductive chain (heap : gmap addr RenderState) : addr -> list (addr * RenderState) -> Prop :=
| chain_root p r :
    heap !! p = Some r -> _parent r = None -> chain heap p [(p, r)]
| chain_step p r q rest :
    heap !! p = Some r -> _parent r = Some q -> chain heap q rest ->
    chain heap p ((p, r) :: rest).

(** The address a list of levels starts at. *)
Definition below_of (levels : list (addr * RenderState)) : option addr :=
  match levels with
  | [] => None
  | (y, _) :: _ => Some y
  end.

(** The override bits of one level, and their accumulation along the
    ancestors as [RenderState::bind] computes it. *)
Definition level_bits (r : RenderState) : Z :=
  match _state r with
  | Some s => _bits s
  | None => 0
  end.

Definition or_level (stateOverrideBits : Z) (level : addr * RenderState) : Z :=
  match _state (snd level) with
  | Some s => Z.lor stateOverrideBits (_bits s)
  | None => stateOverrideBits
  end.

Definition hierarchy_bits (levels : list (addr * RenderState)) : Z :=
  match levels with
  | [] => 0
  | this :: ancestors => fold_left or_level ancestors (level_bits (snd this))
  end.

(** Whether the block of a level, if it has one, overrides state [s]. *)
Definition overrides (s : TrackedState) (level : addr * RenderState) : bool :=
  match _state (snd level) with
  | Some blk => test (_bits blk) (mask s)
  | None => false
  end.

(** What [RenderState::bind] does at one level of the hierarchy: every
    parameter is bound to the effect, then the block, if any, is bound
    without restoring. *)
Definition bind_level (effect : Effect) (w : World) (level : addr * RenderState) : World :=
  let w := bindParameters (_parameters (snd level)) effect w in
  match _state (snd level) with
  | Some blk => bindNoRestore blk w
  | None => w
  end.

(** *** Sample objects *)

Definition sample_node : Node := mkNode 1 None.
Definition fresh_world : World := mkWorld create [] [].

(** A resolver that handles the name TIME and nothing else. *)
Definition time_resolver : ResolveAutoBindingCallback :=
  fun autoBinding _ _ =>
    match autoBinding with
    | Some name => String.eqb name "TIME"
    | None => false
    end.

Definition detached_state : RenderState := RenderState_new.

Definition bound_state : RenderState :=
  mkRenderState [] {[ "u_worldMatrix" := "WORLD_MATRIX" ]} (Some sample_node) None None.

Definition sample_pass : Pass := mkPass (mkEffect 1).
Definition culling_block : StateBlock := setCullFace true create.
Definition blending_block : StateBlock := setBlend true create.

(** A parent at address 1 and its child at address 2. *)
Definition sample_parent (blk : StateBlock) : RenderState :=
  mkRenderState [mkMaterialParameter "u_ambient"] ∅ None (Some blk) None.
Definition sample_child (blk : StateBlock) : RenderState :=
  mkRenderState [mkMaterialParameter "u_diffuse"] ∅ None (Some blk) (Some 1%nat).
Definition sample_heap (parent_block child_block : StateBlock) : gmap addr RenderState :=
  <[ 1%nat := sample_parent parent_block ]>
    (<[ 2%nat := sample_child child_block ]> ∅).

(** ** The rest of RenderState.cpp *)

Definition set_state (v : option StateBlock) (r : RenderState) : RenderState :=
  mkRenderState (_parameters r) (_autoBindings r) (_nodeBinding r) v (_parent r).
Definition set_parent (v : option addr) (r : RenderState) : RenderState :=
  mkRenderState (_parameters r) (_autoBindings r) (_nodeBinding r) (_state r) v.

#[global] Instance StateBlock_eq_dec : EqDecision StateBlock.
Proof. solve_decision. Defined.

(** [RenderState::setStateBlock(StateBlock* state)].  The reference counts
    that [SAFE_RELEASE] and [addRef] maintain belong to [Ref] (Ref.h, not
    among the sources) and are not represented.  Blocks are held by value:
    where the source compares two pointers to blocks of equal contents and
    assigns, the assignment leaves the render state as it is here. *)
Definition setStateBlock (state : option StateBlock) (this : RenderState) : RenderState :=
  if bool_decide (_state this <> state) then set_state state this else this.

(** [RenderState::getStateBlock()]; [_state] is [mutable], so the render
    state is returned as well. *)
Definition getStateBlock (this : RenderState) : StateBlock * RenderState :=
  match _state this with
  | Some state => (state, this)
  | None => (create, set_state (Some create) this)
  end.

(** The first loop of [RenderState::cloneInto], over [_autoBindings]. *)
Fixpoint cloneAutoBindings (entries : list (string * string)) (renderState : RenderState)
  : M RenderState :=
  match entries with
  | [] => ret renderState
  | it :: rest =>
      renderState <- setParameterAutoBinding (fst it) (Some (snd it)) renderState ;;
      cloneAutoBindings rest renderState
  end.

(** The second loop of [RenderState::cloneInto], over [_parameters]: a new
    parameter of the same name is pushed on the target.  What
    [param->cloneInto(paramCopy)] copies is the value of the parameter, which
    lives in MaterialParameter.cpp. *)
Fixpoint cloneParameters (parameters : list MaterialParameter) (renderState : RenderState)
  : RenderState :=
  match parameters with
  | [] => renderState
  | param :: rest =>
      let paramCopy := mkMaterialParameter (getName param) in
      cloneParameters rest
        (set_parameters (_parameters renderState ++ [paramCopy]) renderState)
  end.

(** [RenderState::cloneInto(RenderState* renderState, NodeCloneContext&)],
    called on [this]; the result is the target. *)
Definition cloneInto (this : RenderState) (renderState : RenderState) : M RenderState :=
  renderState <- cloneAutoBindings (iterate (_autoBindings this)) renderState ;;
  let renderState := cloneParameters (_parameters this) renderState in
  let renderState := set_parent (_parent this) renderState in
  ret (match _state this with
       | Some state => setStateBlock (Some state) renderState
       | None => renderState
       end).

(** *** Vocabulary of the further properties *)

(** Every state whose cached value is not the default has its bit set. *)
Definition tracks (d : StateBlock) : Prop :=
  forall s, setting s d <> default_setting s -> test (_bits d) (mask s) = true.

(** Every set bit stands for a non-default value. *)
Definition sound_bits (b : StateBlock) : Prop :=
  forall s, test (_bits b) (mask s) = true -> setting s b <> default_setting s.

(** The block of the nearest level, this one first, that overrides [s]. *)
Fixpoint nearest (s : TrackedState) (levels : list (addr * RenderState))
  : option StateBlock :=
  match levels with
  | [] => None
  | level :: above =>
      match _state (snd level) with
      | Some blk => if test (_bits blk) (mask s) then Some blk else nearest s above
      | None => nearest s above
      end
  end.

(** The names [parseBlend] accepts, by the factor they stand for. *)
Definition blend_name (b : Blend) : option string :=
  match b with
  | BLEND_ZERO => Some "ZERO"
  | BLEND_ONE => Some "ONE"
  | BLEND_SRC_ALPHA => Some "SRC_ALPHA"
  | BLEND_ONE_MINUS_SRC_ALPHA => Some "ONE_MINUS_SRC_ALPHA"
  | BLEND_DST_ALPHA => Some "DST_ALPHA"
  | BLEND_ONE_MINUS_DST_ALPHA => Some "ONE_MINUS_DST_ALPHA"
  | BLEND_CONSTANT_ALPHA => Some "CONSTANT_ALPHA"
  | BLEND_ONE_MINUS_CONSTANT_ALPHA => Some "ONE_MINUS_CONSTANT_ALPHA"
  | BLEND_SRC_ALPHA_SATURATE => Some "SRC_ALPHA_SATURATE"
  | _ => None
  end.

(** The state a recognised name of [setState] governs. *)
Definition governed (k : StateName) : TrackedState :=
  match k with
  | name_blend => BLEND
  | name_blendSrc | name_blendDst => BLEND_FUNC
  | name_cullFace => CULL_FACE
  | name_depthTest => DEPTH_TEST
  | name_depthWrite => DEPTH_WRITE
  end.

(** The render state after [getStateBlock] was called on it. *)
Definition with_block (r : RenderState) : RenderState := snd (getStateBlock r).
Definition with_blocks (levels : list (addr * RenderState)) : list (addr * RenderState) :=
  map (fun level => (fst level, with_block (snd level))) levels.
(** A render state at address 1 that is its own parent. *)
Definition self_parent : RenderState := mkRenderState [] ∅ None None (Some 1%nat).

(** The comparison of [getParameter]: [strcmp(param->getName(), name) == 0]. *)
Definition has_name (name : string) (param : MaterialParameter) : bool :=
  String.eqb (getName param) name.

(** * Properties *)

(** ** Override bits *)

Lemma land_pow2 x k : 0 <= k -> Z.land x (2 ^ k) = if Z.testbit x k then 2 ^ k else 0.
Proof.
  intros Hk. apply Z.bits_inj'. intros n Hn.
  rewrite Z.land_spec, Z.pow2_bits_eqb by lia.
  destruct (Z.eqb_spec k n) as [->|Hne].
  - rewrite andb_true_r. destruct (Z.testbit x n) eqn:E.
    + rewrite Z.pow2_bits_eqb by lia. now rewrite Z.eqb_refl.
    + now rewrite Z.bits_0.
  - rewrite andb_false_r. destruct (Z.testbit x k).
    + rewrite Z.pow2_bits_eqb by lia. symmetry. now apply Z.eqb_neq.
    + now rewrite Z.bits_0.
Qed.

Lemma test_pow2 x k : 0 <= k -> test x (2 ^ k) = Z.testbit x k.
Proof.
  intros Hk. unfold test. rewrite land_pow2 by lia.
  destruct (Z.testbit x k); simpl; [|reflexivity].
  apply negb_true_iff, Z.eqb_neq. pose proof (Z.pow_pos_nonneg 2 k). lia.
Qed.

Lemma test_mask x s : test x (mask s) = Z.testbit x (index s).
Proof.
  destruct s;
    [ apply (test_pow2 x 0) | apply (test_pow2 x 1) | apply (test_pow2 x 2)
    | apply (test_pow2 x 3) | apply (test_pow2 x 4) ]; lia.
Qed.

Lemma mask_bit s s' : Z.testbit (mask s) (index s') = bool_decide (s = s').
Proof. destruct s, s'; reflexivity. Qed.

Lemma index_nonneg s : 0 <= index s.
Proof. destruct s; simpl; lia. Qed.

Lemma test_clear x s s' :
  test (Z.land x (Z.lnot (mask s))) (mask s')
  = test x (mask s') && negb (bool_decide (s = s')).
Proof.
  rewrite !test_mask, Z.land_spec, Z.lnot_spec by apply index_nonneg.
  now rewrite mask_bit.
Qed.

Lemma test_lor x y s : test (Z.lor x y) (mask s) = test x (mask s) || test y (mask s).
Proof. rewrite !test_mask. apply Z.lor_spec. Qed.

Lemma test_mask_mask s s' : test (mask s) (mask s') = bool_decide (s = s').
Proof. destruct s, s'; reflexivity. Qed.

Lemma test_raise x s s' :
  test (Z.lor x (mask s)) (mask s') = test x (mask s') || bool_decide (s = s').
Proof. now rewrite test_lor, test_mask_mask. Qed.

(** ** [restore] and [bindNoRestore], block by block *)

Lemma restored_zero b d s : _bits d = 0 -> restored b d s = false.
Proof. intros H. unfold restored. rewrite H. destruct s; simpl; apply andb_false_r. Qed.

Lemma restore_blocks b w :
  restore_BLEND b w = restore_step b BLEND w
  /\ restore_BLEND_FUNC b w = restore_step b BLEND_FUNC w
  /\ restore_CULL_FACE b w = restore_step b CULL_FACE w
  /\ restore_DEPTH_TEST b w = restore_step b DEPTH_TEST w
  /\ restore_DEPTH_WRITE b w = restore_step b DEPTH_WRITE w.
Proof. repeat split; reflexivity. Qed.

Lemma restore_steps b w :
  restore b w =
  if _bits (_defaultState w) =? 0 then w
  else fold_left (fun w s => restore_step b s w) tracked w.
Proof.
  unfold restore. destruct (_ =? 0); [reflexivity|].
  cbn [fold_left tracked].
  destruct (restore_blocks b w) as (<- & _).
  destruct (restore_blocks b (restore_BLEND b w)) as (_ & <- & _).
  destruct (restore_blocks b (restore_BLEND_FUNC b (restore_BLEND b w))) as (_ & _ & <- & _).
  destruct (restore_blocks b (restore_CULL_FACE b (restore_BLEND_FUNC b (restore_BLEND b w))))
    as (_ & _ & _ & <- & _).
  destruct (restore_blocks b (restore_DEPTH_TEST b
             (restore_CULL_FACE b (restore_BLEND_FUNC b (restore_BLEND b w)))))
    as (_ & _ & _ & _ & <-).
  reflexivity.
Qed.

(** The comparisons written in [bindNoRestore] decide [changed]. *)
Lemma changed_code this d s :
  changed this d s =
  match s with
  | BLEND => test (_bits this) RS_BLEND && negb (eqb (_blendEnabled this) (_blendEnabled d))
  | BLEND_FUNC => test (_bits this) RS_BLEND_FUNC
       && (negb (Blend_eqb (_blendSrc this) (_blendSrc d))
           || negb (Blend_eqb (_blendDst this) (_blendDst d)))
  | CULL_FACE => test (_bits this) RS_CULL_FACE
       && negb (eqb (_cullFaceEnabled this) (_cullFaceEnabled d))
  | DEPTH_TEST => test (_bits this) RS_DEPTH_TEST
       && negb (eqb (_depthTestEnabled this) (_depthTestEnabled d))
  | DEPTH_WRITE => test (_bits this) RS_DEPTH_WRITE
       && negb (eqb (_depthWriteEnabled this) (_depthWriteEnabled d))
  end.
Proof.
  unfold changed, Blend_eqb.
  destruct s; cbn [setting mask]; f_equal.
  all: repeat match goal with
       | |- context [bool_decide ?P] => destruct (bool_decide_reflect P)
       end.
  all: repeat match goal with |- context [eqb ?a ?b] => destruct (eqb_spec a b) end.
  all: cbn; try reflexivity; try congruence.
Qed.

Lemma bindNoRestore_blocks this w :
  bindNoRestore_BLEND this w = bind_step this BLEND w
  /\ bindNoRestore_BLEND_FUNC this w = bind_step this BLEND_FUNC w
  /\ bindNoRestore_CULL_FACE this w = bind_step this CULL_FACE w
  /\ bindNoRestore_DEPTH_TEST this w = bind_step this DEPTH_TEST w
  /\ bindNoRestore_DEPTH_WRITE this w = bind_step this DEPTH_WRITE w.
Proof.
  unfold bind_step. rewrite !changed_code.
  unfold bindNoRestore_BLEND, bindNoRestore_BLEND_FUNC, bindNoRestore_CULL_FACE,
    bindNoRestore_DEPTH_TEST, bindNoRestore_DEPTH_WRITE.
  repeat split.
  all: destruct (_ && _); [|reflexivity].
  all: cbn [setting gl_call assign].
  all: try reflexivity.
  all: match goal with |- context [if ?c then _ else _] => destruct c end.
  all: reflexivity.
Qed.

Lemma bindNoRestore_steps this w :
  bindNoRestore this w =
  update_default (fun d => set_bits (Z.lor (_bits d) (_bits this)) d)
                 (fold_left (fun w s => bind_step this s w) tracked w).
Proof.
  unfold bindNoRestore. cbn [fold_left tracked].
  destruct (bindNoRestore_blocks this w) as (<- & _).
  destruct (bindNoRestore_blocks this (bindNoRestore_BLEND this w)) as (_ & <- & _).
  destruct (bindNoRestore_blocks this
              (bindNoRestore_BLEND_FUNC this (bindNoRestore_BLEND this w)))
    as (_ & _ & <- & _).
  destruct (bindNoRestore_blocks this
              (bindNoRestore_CULL_FACE this
                 (bindNoRestore_BLEND_FUNC this (bindNoRestore_BLEND this w))))
    as (_ & _ & _ & <- & _).
  destruct (bindNoRestore_blocks this
              (bindNoRestore_DEPTH_TEST this
                 (bindNoRestore_CULL_FACE this
                    (bindNoRestore_BLEND_FUNC this (bindNoRestore_BLEND this w)))))
    as (_ & _ & _ & _ & <-).
  reflexivity.
Qed.

(** *** Fields under the assignments *)

Lemma setting_assign_default s s' d :
  setting s' (assign s (default_setting s) d) =
  if bool_decide (s = s') then default_setting s' else setting s' d.
Proof. destruct s, s'; reflexivity. Qed.

Lemma setting_assign_copy s s' this d :
  setting s' (assign s (setting s this) d) =
  if bool_decide (s = s') then setting s' this else setting s' d.
Proof. destruct s, s'; reflexivity. Qed.

Lemma setting_set_bits s v d : setting s (set_bits v d) = setting s d.
Proof. destruct s; reflexivity. Qed.

Lemma bits_assign s v d : _bits (assign s v d) = _bits d.
Proof. destruct s, v; reflexivity. Qed.

(** *** One step of [restore] *)

Section RestoreStep.
Variables (b : Z) (s : TrackedState) (w : World).

Lemma restore_step_trace :
  trace (restore_step b s w) =
  trace w ++ (if restored b (_defaultState w) s
              then [gl_call s (default_setting s)] else []).
Proof.
  unfold restore_step. destruct (restored _ _ _); cbn; [reflexivity|].
  now rewrite app_nil_r.
Qed.

Lemma restore_step_resolvers :
  _customAutoBindingResolvers (restore_step b s w) = _customAutoBindingResolvers w.
Proof. unfold restore_step. now destruct (restored _ _ _). Qed.

Lemma restore_step_bits :
  _bits (_defaultState (restore_step b s w)) =
  if restored b (_defaultState w) s
  then Z.land (_bits (_defaultState w)) (Z.lnot (mask s))
  else _bits (_defaultState w).
Proof.
  unfold restore_step. destruct (restored _ _ _); [|reflexivity].
  cbn [_defaultState update_default emit]. now rewrite bits_assign.
Qed.

Lemma restore_step_setting s' :
  setting s' (_defaultState (restore_step b s w)) =
  if restored b (_defaultState w) s && bool_decide (s = s')
  then default_setting s' else setting s' (_defaultState w).
Proof.
  unfold restore_step. destruct (restored _ _ _); [|reflexivity].
  cbn [_defaultState update_default emit andb].
  rewrite setting_assign_default. unfold clear_bit. now rewrite setting_set_bits.
Qed.

Lemma restore_step_test s' :
  test (_bits (_defaultState (restore_step b s w))) (mask s') =
  test (_bits (_defaultState w)) (mask s')
  && negb (restored b (_defaultState w) s && bool_decide (s = s')).
Proof.
  rewrite restore_step_bits. destruct (restored _ _ _); cbn [andb negb].
  - apply test_clear.
  - now rewrite andb_true_r.
Qed.

Lemma restore_step_restored s' :
  s <> s' ->
  restored b (_defaultState (restore_step b s w)) s' = restored b (_defaultState w) s'.
Proof.
  intros Hne. unfold restored. rewrite restore_step_test.
  rewrite (bool_decide_eq_false_2 _ Hne), andb_false_r. cbn. now rewrite andb_true_r.
Qed.

End RestoreStep.

(** *** One step of [bindNoRestore] *)

Section BindStep.
Variables (this : StateBlock) (s : TrackedState) (w : World).

Lemma bind_step_trace :
  trace (bind_step this s w) =
  trace w ++ (if changed this (_defaultState w) s
              then [gl_call s (setting s this)] else []).
Proof.
  unfold bind_step. destruct (changed _ _ _); cbn; [reflexivity|].
  now rewrite app_nil_r.
Qed.

Lemma bind_step_resolvers :
  _customAutoBindingResolvers (bind_step this s w) = _customAutoBindingResolvers w.
Proof. unfold bind_step. now destruct (changed _ _ _). Qed.

Lemma bind_step_bits :
  _bits (_defaultState (bind_step this s w)) = _bits (_defaultState w).
Proof.
  unfold bind_step. destruct (changed _ _ _); [|reflexivity].
  cbn [_defaultState update_default emit]. now rewrite bits_assign.
Qed.

Lemma bind_step_setting s' :
  setting s' (_defaultState (bind_step this s w)) =
  if changed this (_defaultState w) s && bool_decide (s = s')
  then setting s' this else setting s' (_defaultState w).
Proof.
  unfold bind_step. destruct (changed _ _ _); [|reflexivity].
  cbn [_defaultState update_default emit andb].
  now rewrite setting_assign_copy.
Qed.

Lemma bind_step_changed s' :
  s <> s' ->
  changed this (_defaultState (bind_step this s w)) s' = changed this (_defaultState w) s'.
Proof.
  intros Hne. unfold changed. rewrite bind_step_setting.
  now rewrite (bool_decide_eq_false_2 _ Hne), andb_false_r.
Qed.

End BindStep.

(** *** The two functions as a whole *)

Lemma restore_spec (stateOverrideBits : Z) (w : World) :
  let d := _defaultState w in
  let w' := restore stateOverrideBits w in
  let d' := _defaultState w' in
  trace w' = trace w ++ calls (restored stateOverrideBits d) default_setting
  /\ (forall s, setting s d' =
                if restored stateOverrideBits d s then default_setting s else setting s d)
  /\ (forall s, test (_bits d') (mask s) =
                test (_bits d) (mask s) && negb (restored stateOverrideBits d s))
  /\ _bits d' = fold_left (fun bits s => if restored stateOverrideBits d s
                                         then Z.land bits (Z.lnot (mask s)) else bits)
                          tracked (_bits d)
  /\ _customAutoBindingResolvers w' = _customAutoBindingResolvers w.
Proof.
  intros d w' d'. subst d' w' d. rewrite restore_steps.
  destruct (_ =? 0) eqn:Ez.
  - apply Z.eqb_eq in Ez.
    assert (Hr : forall s, restored stateOverrideBits (_defaultState w) s = false)
      by (intros s; now apply restored_zero).
    unfold calls. cbn [flat_map tracked fold_left]. rewrite !Hr. cbn [app].
    rewrite app_nil_r. repeat split; intros s; rewrite ?Hr; try reflexivity.
    cbn. now rewrite andb_true_r.
  - clear Ez. cbn [fold_left tracked]. repeat split.
    + rewrite !restore_step_trace, !restore_step_restored by discriminate.
      unfold calls. cbn [flat_map tracked]. now rewrite <- !app_assoc, app_nil_r.
    + intros s. rewrite !restore_step_setting, !restore_step_restored by discriminate.
      destruct s; cbn; rewrite ?andb_false_r, ?andb_true_r; reflexivity.
    + intros s. rewrite !restore_step_test, !restore_step_restored by discriminate.
      destruct s; cbn; rewrite ?andb_false_r, ?andb_true_r; cbn; rewrite ?andb_true_r;
        reflexivity.
    + now rewrite !restore_step_bits, !restore_step_restored by discriminate.
    + now rewrite !restore_step_resolvers.
Qed.

Lemma bindNoRestore_spec (this : StateBlock) (w : World) :
  let d := _defaultState w in
  let w' := bindNoRestore this w in
  let d' := _defaultState w' in
  trace w' = trace w ++ calls (changed this d) (fun s => setting s this)
  /\ (forall s, setting s d' = if changed this d s then setting s this else setting s d)
  /\ _bits d' = Z.lor (_bits d) (_bits this)
  /\ _customAutoBindingResolvers w' = _customAutoBindingResolvers w.
Proof.
  intros d w' d'. subst d' w' d. rewrite bindNoRestore_steps.
  cbn [fold_left tracked _defaultState update_default trace _customAutoBindingResolvers].
  repeat split.
  - rewrite !bind_step_trace, !bind_step_changed by discriminate.
    unfold calls. cbn [flat_map tracked]. now rewrite <- !app_assoc, app_nil_r.
  - intros s. rewrite setting_set_bits.
    rewrite !bind_step_setting, !bind_step_changed by discriminate.
    destruct s; cbn; rewrite ?andb_false_r, ?andb_true_r; reflexivity.
  - cbn [set_bits _bits]. now rewrite !bind_step_bits.
  - now rewrite !bind_step_resolvers.
Qed.

(** C2: for every override bitmask, [restore] resets exactly the tracked
    states whose bit is set in the accumulated bits of [_defaultState] and
    not set in the mask: in program order it issues, for each of them and for
    no other state, the OpenGL call that puts the state back to its default;
    the cached value of such a state becomes the default and its bit is
    cleared, while the cached value and the bit of every other state, in
    particular of every state whose bit is in the mask, stay as they were. *)
Theorem restore_resets_exactly (stateOverrideBits : Z) (w : World) :
  let d := _defaultState w in
  let w' := restore stateOverrideBits w in
  let d' := _defaultState w' in
  trace w' = trace w ++ calls (restored stateOverrideBits d) default_setting
  /\ (forall s, setting s d' =
                if restored stateOverrideBits d s then default_setting s else setting s d)
  /\ (forall s, test (_bits d') (mask s) =
                test (_bits d) (mask s) && negb (restored stateOverrideBits d s))
  /\ _bits d' = fold_left (fun bits s => if restored stateOverrideBits d s
                                         then Z.land bits (Z.lnot (mask s)) else bits)
                          tracked (_bits d)
  /\ (forall s, restored stateOverrideBits d s =
                test (_bits d) (mask s) && negb (test stateOverrideBits (mask s))).
Proof.
  intros d w' d'. destruct (restore_spec stateOverrideBits w) as (Ht & Hs & Hb & Hf & _).
  repeat split; try assumption.
  intros s. unfold restored. apply andb_comm.
Qed.

(** C3: [bindNoRestore] issues the OpenGL call for a tracked state exactly
    when the block's override bit for it is set and the block's value differs
    from the value [_defaultState] caches (for the blend function: the pair
    of factors differs); in that case the cached value becomes the block's
    value, otherwise it is left alone; afterwards the accumulated bits are
    the old ones OR-ed with the block's bits, whatever was issued. *)
Theorem bindNoRestore_minimal (this : StateBlock) (w : World) :
  let d := _defaultState w in
  let w' := bindNoRestore this w in
  let d' := _defaultState w' in
  trace w' = trace w ++ calls (changed this d) (fun s => setting s this)
  /\ (forall s, setting s d' = if changed this d s then setting s this else setting s d)
  /\ _bits d' = Z.lor (_bits d) (_bits this)
  /\ (forall s, changed this d s =
                test (_bits this) (mask s)
                && negb (bool_decide (setting s this = setting s d))).
Proof.
  intros d w' d'. destruct (bindNoRestore_spec this w) as (Ht & Hs & Hb & _).
  repeat split; assumption.
Qed.

(** ** Binding a single block *)

Lemma restore_noop b w :
  (forall s, restored b (_defaultState w) s = false) -> restore b w = w.
Proof.
  intros H. rewrite restore_steps. destruct (_ =? 0); [reflexivity|].
  assert (Hs : forall s, restore_step b s w = w)
    by (intros s; unfold restore_step; now rewrite H).
  cbn [fold_left tracked]. now rewrite !Hs.
Qed.

Lemma bindNoRestore_noop this w :
  (forall s, changed this (_defaultState w) s = false) ->
  Z.lor (_bits (_defaultState w)) (_bits this) = _bits (_defaultState w) ->
  bindNoRestore this w = w.
Proof.
  intros H Hb. rewrite bindNoRestore_steps.
  assert (Hs : forall s, bind_step this s w = w)
    by (intros s; unfold bind_step; now rewrite H).
  cbn [fold_left tracked]. rewrite !Hs.
  destruct w as [[cf dt dw be bs bd bits] rs tr].
  cbn [_defaultState _bits] in Hb. unfold update_default, set_bits.
  cbn [_defaultState _bits _customAutoBindingResolvers trace _cullFaceEnabled
       _depthTestEnabled _depthWriteEnabled _blendEnabled _blendSrc _blendDst].
  now rewrite Hb.
Qed.

(** After [bind], no accumulated bit lies outside the block's bits. *)
Lemma bound_restored this w s :
  restored (_bits this) (_defaultState (StateBlock_bind this w)) s = false.
Proof.
  unfold StateBlock_bind, restored.
  destruct (bindNoRestore_spec this (restore (_bits this) w)) as (_ & _ & Hb & _).
  cbv zeta in Hb. rewrite Hb, test_lor.
  destruct (restore_spec (_bits this) w) as (_ & _ & Ht & _).
  cbv zeta in Ht. rewrite Ht. unfold restored.
  now destruct (test (_bits this) (mask s)), (test (_bits (_defaultState w)) (mask s)).
Qed.

(** After [bindNoRestore], the cache agrees with the block on every state
    the block overrides. *)
Lemma bound_changed this w s :
  changed this (_defaultState (bindNoRestore this w)) s = false.
Proof.
  destruct (bindNoRestore_spec this w) as (_ & Hs & _). cbv zeta in Hs.
  unfold changed at 1. rewrite Hs.
  destruct (changed this (_defaultState w) s) eqn:E.
  - rewrite bool_decide_eq_true_2 by reflexivity. apply andb_false_r.
  - exact E.
Qed.

Lemma bound_bits this w :
  Z.lor (_bits (_defaultState (bindNoRestore this w))) (_bits this)
  = _bits (_defaultState (bindNoRestore this w)).
Proof.
  destruct (bindNoRestore_spec this w) as (_ & _ & Hb & _). cbv zeta in Hb.
  now rewrite Hb, <- Z.lor_assoc, Z.lor_diag.
Qed.

(** C5: [StateBlock::bind()] is [restore] with the block's own bits followed
    by [bindNoRestore()]; and binding the same block a second time, with
    nothing in between, changes nothing: the second [bind()] leaves the
    process-wide state as the first one left it and adds no call to the
    trace, so it issues no GPU call. *)
Theorem StateBlock_bind_twice (this : StateBlock) (w : World) :
  StateBlock_bind this w = bindNoRestore this (restore (_bits this) w)
  /\ StateBlock_bind this (StateBlock_bind this w) = StateBlock_bind this w
  /\ trace (StateBlock_bind this (StateBlock_bind this w))
     = trace (StateBlock_bind this w).
Proof.
  split; [reflexivity|].
  assert (H : StateBlock_bind this (StateBlock_bind this w) = StateBlock_bind this w).
  { unfold StateBlock_bind at 1.
    rewrite restore_noop by (intros s; apply bound_restored).
    unfold StateBlock_bind.
    apply bindNoRestore_noop; [intros s; apply bound_changed | apply bound_bits]. }
  split; [exact H | now rewrite H].
Qed.

(** The scenario of a blending block: binding it issues one [glEnable] and
    one [glBlendFunc] and leaves the accumulated bits at 3; restoring with no
    override bits then issues the two resetting calls and clears the bits. *)
Example blend_scenario :
  let A := setBlendDst BLEND_ONE_MINUS_SRC_ALPHA
             (setBlendSrc BLEND_SRC_ALPHA (setBlend true create)) in
  _bits A = 3
  /\ trace (StateBlock_bind A fresh_world)
     = [glEnable GL_BLEND; glBlendFunc BLEND_SRC_ALPHA BLEND_ONE_MINUS_SRC_ALPHA]
  /\ _bits (_defaultState (StateBlock_bind A fresh_world)) = 3
  /\ trace (restore 0 (StateBlock_bind A fresh_world))
     = [glEnable GL_BLEND; glBlendFunc BLEND_SRC_ALPHA BLEND_ONE_MINUS_SRC_ALPHA;
        glDisable GL_BLEND; glBlendFunc BLEND_ONE BLEND_ZERO]
  /\ _bits (_defaultState (restore 0 (StateBlock_bind A fresh_world))) = 0.
Proof. repeat split. Qed.

(** ** The setters and the override bits *)

(** A setter leaves the field and the bit of every other state alone. *)
Lemma perform_other c s b :
  governs c <> s ->
  setting s (perform b c) = setting s b
  /\ test (_bits (perform b c)) (mask s) = test (_bits b) (mask s).
Proof.
  intros Hne.
  assert (Hc : forall x, test (Z.land x (Z.lnot (mask (governs c)))) (mask s)
                         = test x (mask s)).
  { intros x. rewrite test_clear, (bool_decide_eq_false_2 _ Hne). apply andb_true_r. }
  assert (Hr : forall x, test (Z.lor x (mask (governs c))) (mask s) = test x (mask s)).
  { intros x. rewrite test_raise, (bool_decide_eq_false_2 _ Hne). apply orb_false_r. }
  destruct c; cbn [perform governs mask] in *;
    unfold setBlend, setBlendSrc, setBlendDst, setCullFace, setDepthTest, setDepthWrite;
    cbv zeta;
    repeat match goal with |- context [if ?g then _ else _] => destruct g end;
    unfold clear_bit, raise_bit; cbn [_bits set_bits set_blendEnabled set_blendSrc
      set_blendDst set_cullFaceEnabled set_depthTestEnabled set_depthWriteEnabled];
    rewrite ?setting_set_bits, ?Hc, ?Hr; (split; [|reflexivity]);
    destruct s; try reflexivity; congruence.
Qed.

(** A setter makes the bit of its own state reflect the field. *)
Lemma perform_governed c b : bit_reflects (governs c) (perform b c).
Proof.
  unfold bit_reflects.
  destruct c; cbn [perform governs mask setting default_setting];
    unfold setBlend, setBlendSrc, setBlendDst, setCullFace, setDepthTest, setDepthWrite,
      Blend_eqb; cbv zeta.
  all: repeat match goal with
       | |- context [bool_decide ?P] => destruct (bool_decide_reflect P)
       | e : bool |- _ => destruct e
       end.
  all: cbn [andb negb]; unfold clear_bit, raise_bit;
    cbn [_bits set_bits set_blendEnabled set_blendSrc set_blendDst set_cullFaceEnabled
         set_depthTestEnabled set_depthWriteEnabled _blendEnabled _blendSrc _blendDst
         _cullFaceEnabled _depthTestEnabled _depthWriteEnabled].
  all: first
    [ rewrite (test_raise _ BLEND BLEND) | rewrite (test_raise _ BLEND_FUNC BLEND_FUNC)
    | rewrite (test_raise _ CULL_FACE CULL_FACE) | rewrite (test_raise _ DEPTH_TEST DEPTH_TEST)
    | rewrite (test_raise _ DEPTH_WRITE DEPTH_WRITE)
    | rewrite (test_clear _ BLEND BLEND) | rewrite (test_clear _ BLEND_FUNC BLEND_FUNC)
    | rewrite (test_clear _ CULL_FACE CULL_FACE) | rewrite (test_clear _ DEPTH_TEST DEPTH_TEST)
    | rewrite (test_clear _ DEPTH_WRITE DEPTH_WRITE) ].
  all: cbn in *; rewrite ?orb_true_r, ?andb_false_r; split; try congruence;
    try discriminate.
  all: intros H; try (exfalso; apply H; congruence); intros [= ? ?]; congruence.
Qed.

Lemma perform_sequence s (cs : list SetterCall) :
  forall b : StateBlock,
    bit_reflects s b \/ Exists (fun c => governs c = s) cs ->
    bit_reflects s (fold_left perform cs b).
Proof.
  induction cs as [|c cs IH]; intros b H; cbn [fold_left].
  - destruct H as [H|H]; [exact H|inversion H].
  - apply IH. destruct (decide (governs c = s)) as [<-|Hne].
    + left. apply perform_governed.
    + destruct H as [H|H].
      * left. unfold bit_reflects in *.
        destruct (perform_other c s b Hne) as [-> ->]. exact H.
      * right. inversion H; subst; [contradiction|assumption].
Qed.

Lemma create_reflects s : s <> DEPTH_WRITE -> bit_reflects s create.
Proof.
  intros Hne. unfold bit_reflects. destruct s; try contradiction; cbn; split;
    try discriminate; intros H; now elim H.
Qed.

(** After any sequence of setter calls on a new block, the bits of blend,
    blend function, cull face and depth test reflect their fields; the bit of
    depth write does so once [setDepthWrite] has been called. *)
Lemma setters_keep_bits_exact (cs : list SetterCall) (s : TrackedState) :
  s <> DEPTH_WRITE \/ Exists (fun c => governs c = DEPTH_WRITE) cs ->
  bit_reflects s (fold_left perform cs create).
Proof.
  intros H. apply perform_sequence. destruct (decide (s = DEPTH_WRITE)) as [->|Hne].
  - destruct H as [H|H]; [contradiction|now right].
  - left. now apply create_reflects.
Qed.

(** C4: the constructor leaves [_depthWriteEnabled] at [false], which is not
    the default (depth write on), with the [RS_DEPTH_WRITE] bit clear.  So on
    a new block, after no setter call at all, and equally after
    [setBlend(true); setCullFace(true)], the depth-write bit does not reflect
    the field: the field holds a non-default value and the bit is not set. *)
Theorem fresh_block_depth_write_bit :
  _depthWriteEnabled (fold_left perform [] create) = false
  /\ default_setting DEPTH_WRITE = Toggle true
  /\ test (_bits (fold_left perform [] create)) RS_DEPTH_WRITE = false
  /\ ~ bit_reflects DEPTH_WRITE (fold_left perform [] create)
  /\ ~ bit_reflects DEPTH_WRITE
       (fold_left perform [call_setBlend true; call_setCullFace true] create).
Proof.
  repeat split; unfold bit_reflects; cbn.
  - intros [_ H]. specialize (H ltac:(discriminate)). discriminate.
  - intros [_ H]. specialize (H ltac:(discriminate)). discriminate.
Qed.

(** The singleton is created by the same constructor, so it caches depth
    write as off: the first block that turns depth write off is bound without
    any [glDepthMask] call. *)
Example depth_write_off_first_bind :
  trace (StateBlock_bind (setDepthWrite false create) fresh_world) = []
  /\ test (_bits (setDepthWrite false create)) RS_DEPTH_WRITE = true.
Proof. split; reflexivity. Qed.

(** ** Auto-binding resolution *)

Lemma append_events_nil w : append_events [] w = w.
Proof. destruct w. unfold append_events. cbn. now rewrite app_nil_r. Qed.

Lemma emit_append e w : emit e w = append_events [e] w.
Proof. reflexivity. Qed.

Lemma append_events_app evs1 evs2 w :
  append_events evs2 (append_events evs1 w) = append_events (evs1 ++ evs2) w.
Proof. unfold append_events. cbn. now rewrite app_assoc. Qed.

Lemma find_parameter_name name ps p :
  find_parameter name ps = Some p -> p = mkMaterialParameter name.
Proof.
  induction ps as [|q ps IH]; cbn; [discriminate|].
  destruct (String.eqb_spec (getName q) name) as [<-|_]; [|exact IH].
  intros [= <-]. now destruct q.
Qed.

Lemma getParameter_fst name this : fst (getParameter name this) = mkMaterialParameter name.
Proof.
  unfold getParameter. destruct (find_parameter _ _) eqn:E; [|reflexivity].
  now apply find_parameter_name in E.
Qed.

Lemma getParameter_snd name this :
  let this' := snd (getParameter name this) in
  _autoBindings this' = _autoBindings this
  /\ _nodeBinding this' = _nodeBinding this
  /\ _state this' = _state this
  /\ _parent this' = _parent this.
Proof. unfold getParameter. now destruct (find_parameter _ _). Qed.

Lemma callResolvers_spec resolvers autoBinding node param :
  forall i w,
    callResolvers i resolvers autoBinding node param w =
    match first_handler resolvers autoBinding node param with
    | Some k => (true, append_events (consulted i (S k) autoBinding node param) w)
    | None => (false, append_events (consulted i (length resolvers) autoBinding node param) w)
    end.
Proof.
  induction resolvers as [|r rest IH]; intros i w; cbn [callResolvers first_handler].
  - cbn. now rewrite append_events_nil.
  - destruct (r autoBinding node param).
    + reflexivity.
    + rewrite IH, emit_append.
      destruct (first_handler rest autoBinding node param); cbn [option_map];
        now rewrite append_events_app.
Qed.

Lemma first_handler_Some resolvers autoBinding node param :
  forall k r,
    resolvers !! k = Some r ->
    r autoBinding node param = true ->
    (forall j r', (j < k)%nat -> resolvers !! j = Some r' ->
                  r' autoBinding node param = false) ->
    first_handler resolvers autoBinding node param = Some k.
Proof.
  induction resolvers as [|r0 rest IH]; intros k r Hk Hr Hbefore; [discriminate|].
  cbn [first_handler]. destruct k as [|k].
  - cbn in Hk. injection Hk as ->. now rewrite Hr.
  - rewrite (Hbefore O r0) by (cbn; first [lia|reflexivity]).
    rewrite (IH k r); [reflexivity|exact Hk|exact Hr|].
    intros j r' Hj Hl. apply (Hbefore (S j) r'); [lia|exact Hl].
Qed.

Lemma first_handler_None resolvers autoBinding node param :
  Forall (fun r : ResolveAutoBindingCallback => r autoBinding node param = false) resolvers ->
  first_handler resolvers autoBinding node param = None.
Proof.
  induction 1 as [|r rest Hr _ IH]; [reflexivity|].
  cbn [first_handler]. now rewrite Hr, IH.
Qed.

Lemma builtin_table_events node param autoBinding getter :
  In (autoBinding, getter) builtin_table ->
  builtin_events node param autoBinding =
  [MaterialParameter_bindValue param (NodeMethod (Some node) getter)].
Proof.
  unfold builtin_table. cbn [In]. intros H.
  repeat (destruct H as [[= <- <-]|H]; [reflexivity|]). contradiction.
Qed.

(** With a node attached, [applyAutoBinding] returns, and what it does is
    [resolution_events]. *)
Lemma applyAutoBinding_spec uniformName autoBinding this node w :
  _nodeBinding this = Some node ->
  applyAutoBinding uniformName (Some autoBinding) this w =
  Returned (snd (getParameter uniformName this))
           (append_events
              (resolution_events (_customAutoBindingResolvers w) node uniformName autoBinding)
              w).
Proof.
  intros Hn. unfold applyAutoBinding, resolution_events.
  pose proof (getParameter_fst uniformName this) as Hp.
  destruct (getParameter_snd uniformName this) as (_ & Hn' & _).
  destruct (getParameter uniformName this) as [param this']. cbn [fst snd] in *.
  subst param. rewrite Hn', Hn in *. rewrite callResolvers_spec.
  destruct (first_handler _ _ _ _); [reflexivity|].
  unfold builtin_events, bindValue, report_warning.
  rewrite !emit_append, <- !append_events_app.
  cbn [table_lookup builtin_table].
  repeat (destruct (String.eqb autoBinding _); [reflexivity|]).
  unfold skin_of. destruct (getModel node) as [m|]; [destruct (getSkin m)|].
  all: destruct (String.eqb autoBinding _);
    now rewrite ?emit_append, ?append_events_nil.
Qed.

(** C7: when [applyAutoBinding] resolves a name against the attached node,
    the registered resolvers are called in registration order; if the
    resolver at position [k] is the first to return [true], the calls to the
    resolvers 0..k are all that happens (no built-in binding, no warning);
    if every resolver returns [false], all of them are called and then the
    built-in stage runs: a name of the built-in table binds the matching
    accessor of the node, MATRIX_PALETTE binds the palette of the node's skin
    and does nothing at all when there is no skin, and any other name gives
    the "Unsupported auto binding" warning and binds nothing; in every case
    the call returns. *)
Theorem applyAutoBinding_resolution (uniformName autoBinding : string)
  (this : RenderState) (node : Node) (w : World) :
  _nodeBinding this = Some node ->
  let param := mkMaterialParameter uniformName in
  let resolvers := _customAutoBindingResolvers w in
  let asked := fun n => consulted 0 n (Some autoBinding) (Some node) param in
  let this' := snd (getParameter uniformName this) in
  (forall k r,
      resolvers !! k = Some r ->
      r (Some autoBinding) (Some node) param = true ->
      (forall j r', (j < k)%nat -> resolvers !! j = Some r' ->
                    r' (Some autoBinding) (Some node) param = false) ->
      applyAutoBinding uniformName (Some autoBinding) this w =
      Returned this' (append_events (asked (S k)) w))
  /\ (Forall (fun r : ResolveAutoBindingCallback =>
                r (Some autoBinding) (Some node) param = false) resolvers ->
      applyAutoBinding uniformName (Some autoBinding) this w =
      Returned this'
        (append_events (asked (length resolvers) ++ builtin_events node param autoBinding) w))
  /\ (forall getter,
        In (autoBinding, getter) builtin_table ->
        builtin_events node param autoBinding =
        [MaterialParameter_bindValue param (NodeMethod (Some node) getter)])
  /\ (autoBinding = "MATRIX_PALETTE" ->
      builtin_events node param autoBinding =
      match skin_of node with
      | Some skin => [MaterialParameter_bindValue param (SkinMatrixPalette skin)]
      | None => []
      end)
  /\ (table_lookup autoBinding builtin_table = None ->
      autoBinding <> "MATRIX_PALETTE" ->
      builtin_events node param autoBinding =
      [GP_WARN "Unsupported auto binding type (%d)."]).
Proof.
  intros Hn param resolvers asked this'. subst this' asked resolvers param.
  repeat split.
  - intros k r Hk Hr Hbefore. rewrite (applyAutoBinding_spec _ _ _ node) by exact Hn.
    unfold resolution_events.
    now rewrite (first_handler_Some _ _ _ _ k r Hk Hr Hbefore).
  - intros Hall. rewrite (applyAutoBinding_spec _ _ _ node) by exact Hn.
    unfold resolution_events. now rewrite first_handler_None.
  - intros getter. apply builtin_table_events.
  - intros ->. reflexivity.
  - intros Hnone Hne. unfold builtin_events. rewrite Hnone.
    destruct (String.eqb_spec autoBinding "MATRIX_PALETTE"); [contradiction|reflexivity].
Qed.

(** A resolver registered for TIME that returns [true] is the only thing
    called: no built-in resolution and no warning. *)
Lemma applyAutoBinding_resolution_witness :
  applyAutoBinding "u_time" (Some "TIME") bound_state
    (registerAutoBindingResolver time_resolver fresh_world)
  = Returned (snd (getParameter "u_time" bound_state))
      (append_events
         [ResolverCalled 0 (Some "TIME") (Some sample_node) (mkMaterialParameter "u_time")]
         (registerAutoBindingResolver time_resolver fresh_world)).
Proof.
  apply (proj1 (applyAutoBinding_resolution "u_time" "TIME" bound_state sample_node
                  (registerAutoBindingResolver time_resolver fresh_world) eq_refl)
               O time_resolver).
  - reflexivity.
  - reflexivity.
  - intros j r' Hj. lia.
Defined.

(** ** Recording auto-bindings and attaching a node *)

Lemma applyAutoBindings_spec node entries :
  forall this w,
    _nodeBinding this = Some node ->
    applyAutoBindings entries this w =
    Returned (with_parameters entries this)
      (append_events
         (flat_map (fun itr => resolution_events (_customAutoBindingResolvers w) node
                                 (fst itr) (snd itr)) entries)
         w).
Proof.
  induction entries as [|itr rest IH]; intros this w Hn.
  - cbn. unfold ret. now rewrite append_events_nil.
  - cbn [applyAutoBindings flat_map with_parameters fold_left]. unfold andThen.
    rewrite (applyAutoBinding_spec _ _ _ node) by exact Hn.
    fold (with_parameters rest (snd (getParameter (fst itr) this))).
    rewrite IH.
    + cbn [_customAutoBindingResolvers append_events]. now rewrite append_events_app.
    + destruct (getParameter_snd (fst itr) this) as (_ & -> & _). exact Hn.
Qed.

Lemma key_le_total : Total key_le.
Proof. intros x y. unfold key_le. apply String.leb_total. Qed.

(** Iteration visits every entry of the map once, in key order. *)
Lemma iterate_entries (m : gmap string string) :
  iterate m ≡ₚ map_to_list m
  /\ NoDup (map fst (iterate m))
  /\ Sorted key_le (iterate m).
Proof.
  unfold iterate. split; [apply merge_sort_Permutation|]. split.
  - rewrite (merge_sort_Permutation key_le (map_to_list m)).
    apply NoDup_fst_map_to_list.
  - apply Sorted_merge_sort, key_le_total.
Qed.

(** With a non-null auto-binding the assertion of [setParameterAutoBinding]
    holds: the entry is recorded, and resolved if a node is attached. *)
Lemma setParameterAutoBinding_Some name autoBinding this w :
  setParameterAutoBinding name (Some autoBinding) this w =
  match _nodeBinding this with
  | Some _ =>
      applyAutoBinding name (Some autoBinding)
        (set_autoBindings (<[name := autoBinding]> (_autoBindings this)) this) w
  | None =>
      Returned (set_autoBindings (<[name := autoBinding]> (_autoBindings this)) this) w
  end.
Proof.
  unfold setParameterAutoBinding, GP_ASSERT, andThen, non_null, ret.
  cbn [_nodeBinding set_autoBindings]. now destruct (_nodeBinding this).
Qed.

(** C8: (1) with no node binding attached, setting an auto-binding records
    the entry in the map and does nothing else: no resolver is called,
    nothing is bound, nothing is reported; (2) attaching a node different
    from the current one resolves the recorded auto-bindings against that
    node, one resolution per entry of the map, each entry once, in key order;
    (3) with a node binding attached, setting an auto-binding records the
    entry and resolves it at once against the attached node. *)
Theorem autoBindings_resolved_on_attach (name autoBinding : string) (this : RenderState)
  (node : Node) (w : World) :
  let resolvers := _customAutoBindingResolvers w in
  let recorded := set_autoBindings (<[name := autoBinding]> (_autoBindings this)) this in
  (_nodeBinding this = None ->
   setParameterAutoBinding name (Some autoBinding) this w = Returned recorded w)
  /\ (_nodeBinding this <> Some node ->
      let entries := iterate (_autoBindings this) in
      setNodeBinding (Some node) this w =
      Returned (with_parameters entries (set_nodeBinding (Some node) this))
        (append_events
           (flat_map (fun itr => resolution_events resolvers node (fst itr) (snd itr)) entries)
           w)
      /\ entries ≡ₚ map_to_list (_autoBindings this)
      /\ NoDup (map fst entries)
      /\ Sorted key_le entries)
  /\ (_nodeBinding this = Some node ->
      setParameterAutoBinding name (Some autoBinding) this w =
      Returned (snd (getParameter name recorded))
        (append_events (resolution_events resolvers node name autoBinding) w)).
Proof.
  intros resolvers recorded. subst resolvers recorded. repeat split.
  - intros Hn. rewrite setParameterAutoBinding_Some.
    now rewrite Hn.
  - unfold setNodeBinding. rewrite bool_decide_eq_true_2 by exact H.
    cbn [_nodeBinding set_nodeBinding]. now rewrite (applyAutoBindings_spec node).
  - apply iterate_entries.
  - apply iterate_entries.
  - apply iterate_entries.
  - intros Hn. rewrite setParameterAutoBinding_Some.
    rewrite Hn. now rewrite (applyAutoBinding_spec _ _ _ node).
Qed.

(** WORLD_MATRIX set before a node is attached is only recorded; attaching
    the node binds [getWorldMatrix] once; VIEW_MATRIX set on a render state
    with a node is bound at once. *)
Lemma autoBindings_resolved_on_attach_witness :
  setParameterAutoBinding "u_worldMatrix" (Some "WORLD_MATRIX") detached_state fresh_world
  = Returned (set_autoBindings {[ "u_worldMatrix" := "WORLD_MATRIX" ]} detached_state)
             fresh_world
  /\ setNodeBinding (Some sample_node)
       (set_autoBindings {[ "u_worldMatrix" := "WORLD_MATRIX" ]} detached_state) fresh_world
     = Returned
         (mkRenderState [mkMaterialParameter "u_worldMatrix"]
            {[ "u_worldMatrix" := "WORLD_MATRIX" ]} (Some sample_node) None None)
         (append_events
            [MaterialParameter_bindValue (mkMaterialParameter "u_worldMatrix")
               (NodeMethod (Some sample_node) getWorldMatrix)]
            fresh_world)
  /\ setParameterAutoBinding "u_view" (Some "VIEW_MATRIX") bound_state fresh_world
     = Returned
         (snd (getParameter "u_view"
                 (set_autoBindings (<[ "u_view" := "VIEW_MATRIX" ]> (_autoBindings bound_state))
                    bound_state)))
         (append_events
            [MaterialParameter_bindValue (mkMaterialParameter "u_view")
               (NodeMethod (Some sample_node) getViewMatrix)]
            fresh_world).
Proof.
  split; [|split].
  - exact (proj1 (autoBindings_resolved_on_attach "u_worldMatrix" "WORLD_MATRIX"
                    detached_state sample_node fresh_world) eq_refl).
  - refine (proj1 (proj1 (proj2 (autoBindings_resolved_on_attach "u_x" "X"
                    (set_autoBindings {[ "u_worldMatrix" := "WORLD_MATRIX" ]} detached_state)
                    sample_node fresh_world)) _)).
    discriminate.
  - exact (proj2 (proj2 (autoBindings_resolved_on_attach "u_view" "VIEW_MATRIX"
                    bound_state sample_node fresh_world)) eq_refl).
Defined.

(** ** The enumeration overload *)

Lemma autoBindingToString_spelled (a : AutoBinding) :
  a <> NONE -> a <> WORLD_MATRIX ->
  autoBindingToString a = Some (AutoBinding_name a).
Proof. destruct a; intros; try reflexivity; contradiction. Qed.

(** For the ten constants that [autoBindingToString] has a case for, the two
    overloads are the same function. *)
Lemma enum_overload_agrees (name : string) (a : AutoBinding) (this : RenderState) :
  a <> NONE -> a <> WORLD_MATRIX ->
  setParameterAutoBinding_enum name a this
  = setParameterAutoBinding name (Some (AutoBinding_name a)) this.
Proof.
  intros H1 H2. unfold setParameterAutoBinding_enum.
  now rewrite autoBindingToString_spelled.
Qed.

(** C6: [autoBindingToString] has no case for [WORLD_MATRIX], which falls to
    [default] and becomes the empty string.  On a render state with a node
    attached, the enumeration overload called with [WORLD_MATRIX] records the
    empty string and ends in the "Unsupported auto binding" warning, while
    the string overload called with "WORLD_MATRIX" records that name and
    binds [Node::getWorldMatrix]: the two calls differ. *)
Theorem enum_overload_WORLD_MATRIX :
  autoBindingToString WORLD_MATRIX = Some ""
  /\ setParameterAutoBinding_enum "u_world" WORLD_MATRIX bound_state fresh_world
     = Returned
         (mkRenderState [mkMaterialParameter "u_world"]
            (<[ "u_world" := "" ]> (_autoBindings bound_state))
            (Some sample_node) None None)
         (append_events [GP_WARN "Unsupported auto binding type (%d)."] fresh_world)
  /\ setParameterAutoBinding "u_world" (Some (AutoBinding_name WORLD_MATRIX))
       bound_state fresh_world
     = Returned
         (mkRenderState [mkMaterialParameter "u_world"]
            (<[ "u_world" := "WORLD_MATRIX" ]> (_autoBindings bound_state))
            (Some sample_node) None None)
         (append_events
            [MaterialParameter_bindValue (mkMaterialParameter "u_world")
               (NodeMethod (Some sample_node) getWorldMatrix)]
            fresh_world)
  /\ setParameterAutoBinding_enum "u_world" WORLD_MATRIX bound_state fresh_world
     <> setParameterAutoBinding "u_world" (Some (AutoBinding_name WORLD_MATRIX))
          bound_state fresh_world.
Proof.
  assert (H1 : setParameterAutoBinding_enum "u_world" WORLD_MATRIX bound_state fresh_world
     = Returned
         (mkRenderState [mkMaterialParameter "u_world"]
            (<[ "u_world" := "" ]> (_autoBindings bound_state))
            (Some sample_node) None None)
         (append_events [GP_WARN "Unsupported auto binding type (%d)."] fresh_world))
    by reflexivity.
  assert (H2 : setParameterAutoBinding "u_world" (Some (AutoBinding_name WORLD_MATRIX))
       bound_state fresh_world
     = Returned
         (mkRenderState [mkMaterialParameter "u_world"]
            (<[ "u_world" := "WORLD_MATRIX" ]> (_autoBindings bound_state))
            (Some sample_node) None None)
         (append_events
            [MaterialParameter_bindValue (mkMaterialParameter "u_world")
               (NodeMethod (Some sample_node) getWorldMatrix)]
            fresh_world))
    by reflexivity.
  split; [reflexivity|]. split; [exact H1|]. split; [exact H2|].
  rewrite H1, H2. now intros [=].
Qed.

(** ** A null auto-binding *)


(** C10: on a render state with a node attached and no resolver
    registered, [setParameterAutoBinding] with a null auto-binding, be it
    passed as such or as the enumeration constant [NONE], does not remove
    the entry and return.  The null pointer violates the assertion that
    opens the function; past the assertion the code erases the entry and
    hands the null pointer to [applyAutoBinding], whose first [strcmp] reads
    it.  Either way the call does not return. *)
Theorem null_autoBinding_attached :
  setParameterAutoBinding "u_worldMatrix" None bound_state fresh_world = Fault fresh_world
  /\ setParameterAutoBinding_enum "u_worldMatrix" NONE bound_state fresh_world
     = Fault fresh_world.
Proof. split; reflexivity. Qed.

(** ** String-driven configuration *)

Lemma parseBoolean_true value :
  parseBoolean value = String.eqb (transform tolower value) "true".
Proof.
  destruct value as [|v0 [|v1 [|v2 [|v3 [|v4 rest]]]]];
    cbn [parseBoolean transform String.eqb].
  all: repeat match goal with
       | |- context [Ascii.eqb (tolower ?a) ?b] => destruct (Ascii.eqb (tolower a) b)
       end.
  all: reflexivity.
Qed.

Lemma parseBlend_table value w :
  parseBlend value w =
  match table_lookup (transform toupper value) blend_vocabulary with
  | Some blend => (blend, w)
  | None =>
      (BLEND_ONE,
       report_error
         "Unsupported blend value (%s). (Will default to BLEND_ONE if errors are treated as warnings)"
         w)
  end.
Proof.
  unfold parseBlend. cbn [table_lookup blend_vocabulary].
  repeat (destruct (String.eqb (transform toupper value) _); [reflexivity|]).
  reflexivity.
Qed.

(** C9: [setState] looks the name up, by exact comparison, among blend,
    blendSrc, srcBlend, blendDst, dstBlend, cullFace, depthTest and
    depthWrite, and calls the setter the name stands for on the parsed value;
    any other name is reported as an error and leaves the block as it was,
    and the call returns.  A boolean value is [true] exactly when its
    lower-cased spelling is "true".  A blend value is looked up, upper-cased,
    among the nine blend-factor names; a value outside them is reported as an
    error and parsed as [BLEND_ONE], which is then handed to the setter. *)
Theorem setState_vocabulary (name value : string) (this : StateBlock) (w : World) :
  setState name value this w =
    match table_lookup name state_vocabulary with
    | Some k => configure k value this w
    | None => (this, report_error "Unsupported render state string '%s'." w)
    end
  /\ parseBoolean value = String.eqb (transform tolower value) "true"
  /\ parseBlend value w =
     match table_lookup (transform toupper value) blend_vocabulary with
     | Some blend => (blend, w)
     | None =>
         (BLEND_ONE,
          report_error
            "Unsupported blend value (%s). (Will default to BLEND_ONE if errors are treated as warnings)"
            w)
     end.
Proof.
  split; [|split; [apply parseBoolean_true|apply parseBlend_table]].
  unfold setState. cbn [table_lookup state_vocabulary].
  destruct (String.eqb name "blend"); [reflexivity|].
  destruct (String.eqb name "blendSrc"); cbn [orb configure];
    [now destruct (parseBlend value w)|].
  destruct (String.eqb name "srcBlend"); cbn [orb configure];
    [now destruct (parseBlend value w)|].
  destruct (String.eqb name "blendDst"); cbn [orb configure];
    [now destruct (parseBlend value w)|].
  destruct (String.eqb name "dstBlend"); cbn [orb configure];
    [now destruct (parseBlend value w)|].
  repeat (destruct (String.eqb name _); [reflexivity|]).
  reflexivity.
Qed.

Example setState_samples :
  parseBoolean "TrUe" = true
  /\ parseBoolean "yes" = false
  /\ fst (parseBlend "src_alpha" fresh_world) = BLEND_SRC_ALPHA
  /\ parseBlend "SRC_COLOR" fresh_world
     = (BLEND_ONE,
        append_events
          [GP_ERROR "Unsupported blend value (%s). (Will default to BLEND_ONE if errors are treated as warnings)"]
          fresh_world)
  /\ setState "Blend" "true" create fresh_world
     = (create, append_events [GP_ERROR "Unsupported render state string '%s'."] fresh_world)
  /\ setState "srcBlend" "bogus" (setBlendSrc BLEND_SRC_ALPHA create) fresh_world
     = (setBlendSrc BLEND_ONE (setBlendSrc BLEND_SRC_ALPHA create),
        append_events
          [GP_ERROR "Unsupported blend value (%s). (Will default to BLEND_ONE if errors are treated as warnings)"]
          fresh_world).
Proof. repeat split. Qed.

(** ** The hierarchy *)

Section Hierarchy.
Variable heap : gmap addr RenderState.

Lemma chain_head p levels :
  chain heap p levels ->
  exists r rest, levels = (p, r) :: rest /\ heap !! p = Some r /\ _parent r = below_of rest.
Proof.
  destruct 1 as [p r Hp Hr|p r q rest Hp Hr Hc].
  - now exists r, [].
  - exists r, rest. repeat split; [exact Hp|].
    destruct Hc; cbn; exact Hr.
Qed.

Lemma chain_det p l1 :
  chain heap p l1 -> forall l2, chain heap p l2 -> l1 = l2.
Proof.
  induction 1 as [p r Hp Hr|p r q rest Hp Hr Hc IH]; intros l2 H2.
  - destruct H2 as [p r' Hp' Hr'|p r' q' rest' Hp' Hr' Hc']; congruence.
  - destruct H2 as [p r' Hp' Hr'|p r' q' rest' Hp' Hr' Hc']; [congruence|].
    assert (r' = r) by congruence. subst r'.
    assert (q' = q) by congruence. subst q'.
    f_equal. now apply IH.
Qed.

Lemma chain_suffix pre x rx post :
  forall p, chain heap p (pre ++ (x, rx) :: post) -> chain heap x ((x, rx) :: post).
Proof.
  induction pre as [|[a ra] pre IH]; intros p H; cbn in H.
  - destruct (chain_head _ _ H) as (r & rest & [= -> -> ->] & _). exact H.
  - inversion H; subst.
    + now destruct pre.
    + eapply IH. eassumption.
Qed.

Lemma chain_NoDup p levels : chain heap p levels -> NoDup (map fst levels).
Proof.
  induction 1 as [p r Hp Hr|p r q rest Hp Hr Hc IH]; cbn.
  - apply NoDup_singleton.
  - apply NoDup_cons. split; [|exact IH].
    intros Hin. apply list_elem_of_fmap in Hin as ([p' r'] & Heq & Hin).
    cbn in Heq. subst p'.
    apply list_elem_of_split in Hin as (pre & post & ->).
    pose proof (chain_suffix _ _ _ _ _ Hc) as Hs.
    pose proof (chain_det _ _ Hs _ (chain_step _ _ _ _ _ Hp Hr Hc)) as Heq.
    apply (f_equal (@length _)) in Heq. rewrite !length_cons, length_app, length_cons in Heq.
    lia.
Qed.

Lemma chain_parent pre x rx post :
  forall p, chain heap p (pre ++ (x, rx) :: post) ->
            heap !! x = Some rx /\ _parent rx = below_of post.
Proof.
  intros p H. apply chain_suffix in H.
  destruct (chain_head _ _ H) as (r & rest & [= <- <-] & Hx & Hr). now split.
Qed.

(** *** The first loop: the union of the override bits *)

Lemma collectOverrideBits_chain fuel :
  forall q levels acc w,
    chain heap q levels -> (length levels <= fuel)%nat ->
    collectOverrideBits fuel heap (Some q) acc w
    = Returned (fold_left or_level levels acc) w.
Proof.
  induction fuel as [|fuel IH]; intros q levels acc w Hc Hf.
  - destruct Hc; cbn in Hf; lia.
  - cbn [collectOverrideBits]. unfold andThen, deref.
    destruct Hc as [p r Hp Hr|p r q' rest Hp Hr Hc]; rewrite Hp; unfold ret; rewrite Hr.
    + destruct fuel; reflexivity.
    + cbn [length] in Hf. rewrite (IH q' rest) by (assumption || lia). reflexivity.
Qed.

(** *** [getTopmost] *)

Lemma getTopmost_loop_finds fuel below x rx post w :
  forall pre p,
    chain heap p (pre ++ (x, rx) :: post) ->
    (forall a ra, (a, ra) ∈ pre -> _parent ra <> below /\ _parent ra <> None) ->
    _parent rx = below \/ _parent rx = None ->
    (length pre < fuel)%nat ->
    getTopmost_loop fuel heap (Some p) below w = Returned (Some x) w.
Proof.
  induction fuel as [|fuel IH]; intros pre p Hc Hpre Hx Hf; [lia|].
  cbn [getTopmost_loop]. unfold andThen, deref.
  destruct pre as [|[a ra] pre]; cbn [app] in Hc.
  - destruct (chain_head _ _ Hc) as (r & rest & [= <- <- <-] & Hp & _).
    rewrite Hp. unfold ret.
    destruct Hx as [Hx|Hx].
    + now rewrite (bool_decide_eq_true_2 _ Hx).
    + rewrite (bool_decide_eq_true_2 (_parent rx = None) Hx). now rewrite orb_true_r.
  - destruct (Hpre a ra) as [Hb Hn]; [apply list_elem_of_here|].
    inversion Hc; subst; [now destruct pre|].
    match goal with H : heap !! a = Some ra |- _ => rewrite H end. unfold ret.
    rewrite (bool_decide_eq_false_2 _ Hb), (bool_decide_eq_false_2 _ Hn). cbn [orb].
    match goal with H : _parent ra = Some _ |- _ => rewrite H end.
    eapply IH; [eassumption| |exact Hx|cbn in Hf; lia].
    intros a' ra' Hin. apply (Hpre a' ra'). now apply list_elem_of_further.
Qed.

Lemma getTopmost_next fuel this levels pre x rx post w :
  chain heap this levels ->
  levels = pre ++ (x, rx) :: post ->
  (length levels <= fuel)%nat ->
  getTopmost fuel heap this (below_of post) w = Returned (Some x) w.
Proof.
  intros Hc -> Hf.
  pose proof (chain_NoDup _ _ Hc) as Hnd.
  assert (Hfresh : forall y, below_of post = Some y -> y ∉ map fst (pre ++ [(x, rx)])).
  { intros y Hy Hin. destruct post as [|[y' ry] post]; [discriminate|].
    cbn in Hy. injection Hy as ->.
    replace (pre ++ (x, rx) :: (y, ry) :: post)
      with ((pre ++ [(x, rx)]) ++ (y, ry) :: post) in Hnd by now rewrite <- app_assoc.
    rewrite map_app in Hnd. apply NoDup_app in Hnd as (_ & Hd & _).
    apply (Hd y Hin). cbn. apply list_elem_of_here. }
  unfold getTopmost.
  rewrite bool_decide_eq_false_2.
  - apply (getTopmost_loop_finds fuel _ x rx post w pre this Hc).
    + intros a ra Hin. apply list_elem_of_split in Hin as (pre1 & pre2 & ->).
      rewrite <- app_assoc in Hc. cbn [app] in Hc.
      destruct (chain_parent _ _ _ _ _ Hc) as [_ Hpa].
      assert (Hsome : exists q, _parent ra = Some q /\ q ∈ map fst ((pre1 ++ (a, ra) :: pre2) ++ [(x, rx)])).
      { rewrite Hpa. destruct pre2 as [|[q rq] pre2]; cbn.
        - exists x. split; [reflexivity|]. rewrite map_app. cbn.
          apply elem_of_app. right. apply list_elem_of_here.
        - exists q. split; [reflexivity|]. rewrite !map_app. cbn.
          apply elem_of_app. left. apply elem_of_app. right.
          apply list_elem_of_further, list_elem_of_here. }
      destruct Hsome as (q & Hq & Hin). split; [|congruence].
      rewrite Hq. intros Hb. symmetry in Hb. now apply (Hfresh q Hb).
    + left. now destruct (chain_parent _ _ _ _ _ Hc).
    + rewrite length_app in Hf. cbn in Hf. lia.
  - intros Hb. symmetry in Hb. apply (Hfresh this Hb).
    destruct (chain_head _ _ Hc) as (r & rest & Heq & _).
    destruct pre as [|[a ra] pre]; cbn in Heq |- *; injection Heq as -> _;
      apply list_elem_of_here.
Qed.

Lemma getTopmost_self fuel this w :
  getTopmost fuel heap this (Some this) w = Returned None w.
Proof. unfold getTopmost. now rewrite bool_decide_eq_true_2. Qed.

(** *** The second loop: top-down *)

Lemma bindTopDown_chain fuel this levels effect :
  chain heap this levels ->
  (length levels <= fuel)%nat ->
  forall pre post count w,
    levels = pre ++ post ->
    (length pre < count)%nat ->
    bindTopDown count fuel heap this effect (below_of post) w
    = Returned tt (fold_left (bind_level effect) (rev pre) w).
Proof.
  intros Hc Hf pre. induction pre as [|[x rx] pre IH] using rev_ind;
    intros post count w Heq Hcount.
  - cbn [app] in Heq. subst post.
    destruct count as [|count]; [cbn in Hcount; lia|].
    cbn [bindTopDown]. unfold andThen.
    destruct (chain_head _ _ Hc) as (r & rest & -> & _). cbn [below_of].
    now rewrite getTopmost_self.
  - rewrite <- app_assoc in Heq. cbn [app] in Heq.
    destruct count as [|count]; [lia|].
    cbn [bindTopDown]. unfold andThen.
    rewrite (getTopmost_next fuel this levels pre x rx post w Hc Heq Hf).
    subst levels. destruct (chain_parent _ _ _ _ _ Hc) as [Hx _].
    unfold deref. rewrite Hx. unfold ret, lift.
    rewrite rev_app_distr. cbn [rev app fold_left].
    rewrite length_app in Hcount. cbn in Hcount.
    rewrite <- (IH ((x, rx) :: post) count) by (reflexivity || lia).
    cbn [below_of]. unfold bind_level at 1. cbn [snd].
    destruct (_state rx); reflexivity.
Qed.

Lemma RenderState_bind_chain fuel this levels pass w :
  chain heap this levels ->
  (length levels < fuel)%nat ->
  RenderState_bind fuel heap this pass w
  = Returned tt (fold_left (bind_level (getEffect pass)) (rev levels)
                   (restore (hierarchy_bits levels) w)).
Proof.
  intros Hc Hf. unfold RenderState_bind, andThen.
  destruct (chain_head _ _ Hc) as (r & rest & Heq & Hp & Hr).
  unfold deref. rewrite Hp. unfold ret. rewrite Hr.
  assert (Hbits : collectOverrideBits fuel heap (below_of rest)
                    match _state r with Some s => _bits s | None => 0 end w
                  = Returned (hierarchy_bits levels) w).
  { subst levels. cbn [hierarchy_bits snd]. fold (level_bits r).
    inversion Hc as [p0 r0 Hp0 Hr0|p0 r0 q rest0 Hp0 Hr0 Hq]; subst.
    - destruct fuel; reflexivity.
    - destruct (chain_head _ _ Hq) as (r' & rest' & Heq' & _).
      rewrite Heq'. cbn [below_of]. rewrite <- Heq'.
      apply collectOverrideBits_chain; [exact Hq|cbn in Hf; lia]. }
  rewrite Hbits. unfold lift.
  apply (bindTopDown_chain fuel this levels (getEffect pass) Hc ltac:(lia)
           levels [] fuel _ ltac:(now rewrite app_nil_r) Hf).
Qed.
End Hierarchy.

(** ** [RenderState::bind] over the hierarchy *)

Lemma bindParameters_spec effect parameters :
  forall w,
    bindParameters parameters effect w
    = append_events (map (fun param => MaterialParameter_bind param effect) parameters) w.
Proof.
  induction parameters as [|param rest IH]; intros w; cbn [bindParameters map].
  - now rewrite append_events_nil.
  - now rewrite IH, emit_append, append_events_app.
Qed.

(** A level whose block overrides [s] leaves the block's value in the
    cache. *)
Lemma bind_level_overriding effect w level blk s :
  _state (snd level) = Some blk ->
  test (_bits blk) (mask s) = true ->
  setting s (_defaultState (bind_level effect w level)) = setting s blk.
Proof.
  intros Hb Ht. unfold bind_level. rewrite Hb.
  destruct (bindNoRestore_spec blk (bindParameters (_parameters (snd level)) effect w))
    as (_ & Hs & _).
  cbv zeta in Hs. rewrite Hs. unfold changed. rewrite Ht. cbn [andb].
  destruct (bool_decide_reflect
              (setting s blk
               = setting s (_defaultState
                              (bindParameters (_parameters (snd level)) effect w))));
    cbn [negb]; congruence.
Qed.

(** A level that has no block, or whose block does not override [s], leaves
    the cached value of [s] alone. *)
Lemma bind_level_other effect w level s :
  overrides s level = false ->
  setting s (_defaultState (bind_level effect w level)) = setting s (_defaultState w).
Proof.
  unfold overrides, bind_level. intros Ho.
  destruct (_state (snd level)) as [blk|].
  - destruct (bindNoRestore_spec blk (bindParameters (_parameters (snd level)) effect w))
      as (_ & Hs & _).
    cbv zeta in Hs. rewrite Hs. unfold changed. rewrite Ho. cbn [andb].
    now rewrite bindParameters_spec.
  - now rewrite bindParameters_spec.
Qed.

Lemma bind_levels_other effect s levels :
  forallb (fun level => negb (overrides s level)) levels = true ->
  forall w,
    setting s (_defaultState (fold_left (bind_level effect) (rev levels) w))
    = setting s (_defaultState w).
Proof.
  induction levels as [|level levels IH]; intros Hall w; [reflexivity|].
  cbn [forallb] in Hall. apply andb_true_iff in Hall as [Hl Hall].
  cbn [rev]. rewrite fold_left_app. cbn [fold_left].
  rewrite bind_level_other by now apply negb_true_iff.
  now apply IH.
Qed.

Lemma hierarchy_bits_fold s levels :
  forall acc,
    test (fold_left or_level levels acc) (mask s)
    = test acc (mask s) || existsb (overrides s) levels.
Proof.
  induction levels as [|level levels IH]; intros acc; cbn [fold_left existsb].
  - now rewrite orb_false_r.
  - rewrite IH. unfold or_level, overrides. destruct (_state (snd level)).
    + now rewrite test_lor, orb_assoc.
    + reflexivity.
Qed.

(** The bits handed to [restore] are the union of the bits of the levels. *)
Lemma hierarchy_bits_union s levels :
  test (hierarchy_bits levels) (mask s) = existsb (overrides s) levels.
Proof.
  destruct levels as [|level levels]; [reflexivity|].
  cbn [hierarchy_bits existsb]. rewrite hierarchy_bits_fold.
  unfold level_bits, overrides. now destruct (_state (snd level)).
Qed.

(** A setter keeps every set bit standing for a non-default value. *)
Lemma perform_sound c b : sound_bits b -> sound_bits (perform b c).
Proof.
  intros Hb s Ht. destruct (decide (governs c = s)) as [<-|Hne].
  - now apply (perform_governed c b).
  - destruct (perform_other c s b Hne) as [Hs Hbit].
    rewrite Hs. apply Hb. now rewrite <- Hbit.
Qed.

(** In a block made by [create] and any setter calls, a state that holds
    its default value has its bit clear. *)
Lemma setters_default_clear cs s :
  setting s (fold_left perform cs create) = default_setting s ->
  test (_bits (fold_left perform cs create)) (mask s) = false.
Proof.
  assert (H : forall b, sound_bits b -> sound_bits (fold_left perform cs b)).
  { induction cs as [|c cs IH]; intros b Hb; [exact Hb|].
    cbn [fold_left]. apply IH. now apply perform_sound. }
  intros Hs. destruct (test _ _) eqn:Ht; [|reflexivity].
  exfalso. revert Hs. apply (H create); [|exact Ht].
  intros s' Ht'. destruct s'; discriminate Ht'.
Qed.

(** C1 (as amended): for a render state whose parent chain is finite,
    [bind(pass)] returns; it first computes the union of the override bits of
    the blocks of this render state and of all its ancestors, calls [restore]
    once with that union, and then visits the chain top-down (root first,
    this render state last), at every level binding the level's parameters to
    the effect of the pass and then calling [bindNoRestore] on the level's
    block, if it has one.  Consequently, for a state whose override bit is
    set in the block of some level, and in the block of no level below it,
    the value that the singleton [_defaultState] caches after the call is the
    value of that block: this render state's own value when its block has
    the bit, the value of the nearest ancestor that has the bit otherwise.
    A block made by [create] and setter calls in which the state holds its
    default value has the bit clear: it is not among the blocks that
    override the state. *)
Theorem RenderState_bind_hierarchy (fuel : nat) (heap : gmap addr RenderState)
  (this : addr) (levels : list (addr * RenderState)) (pass : Pass) (w : World) :
  chain heap this levels ->
  (length levels < fuel)%nat ->
  let stateOverrideBits := hierarchy_bits levels in
  let w' := fold_left (bind_level (getEffect pass)) (rev levels)
                      (restore stateOverrideBits w) in
  RenderState_bind fuel heap this pass w = Returned tt w'
  /\ (forall s, test stateOverrideBits (mask s) = existsb (overrides s) levels)
  /\ (forall s below p r above blk,
        levels = below ++ (p, r) :: above ->
        _state r = Some blk ->
        test (_bits blk) (mask s) = true ->
        forallb (fun level => negb (overrides s level)) below = true ->
        setting s (_defaultState w') = setting s blk)
  /\ (forall s cs p r,
        _state r = Some (fold_left perform cs create) ->
        setting s (fold_left perform cs create) = default_setting s ->
        overrides s (p, r) = false).
Proof.
  intros Hc Hf bits w'. subst w' bits. split; [|split; [|split]].
  - now apply RenderState_bind_chain.
  - intros s. apply hierarchy_bits_union.
  - intros s below p r above blk -> Hb Ht Hbelow.
    rewrite rev_app_distr. cbn [rev]. rewrite <- app_assoc. cbn [app].
    rewrite !fold_left_app. cbn [fold_left].
    rewrite bind_levels_other by exact Hbelow.
    now apply (bind_level_overriding _ _ (p, r) blk).
  - intros s cs p r Hr Hs. unfold overrides. cbn [snd]. rewrite Hr.
    now apply setters_default_clear.
Qed.

Lemma sample_chain parent_block child_block :
  chain (sample_heap parent_block child_block) 2%nat
    [(2%nat, sample_child child_block); (1%nat, sample_parent parent_block)].
Proof.
  eapply chain_step; [reflexivity|reflexivity|].
  apply chain_root; reflexivity.
Qed.

(** A parent that turns culling on and a child that turns blending on: the
    parent's parameter and block are bound first, then the child's. *)
Lemma RenderState_bind_hierarchy_witness :
  RenderState_bind 3 (sample_heap culling_block blending_block) 2%nat sample_pass fresh_world
  = Returned tt
      (mkWorld (mkStateBlock true false false true BLEND_ONE BLEND_ZERO 5) []
         [ MaterialParameter_bind (mkMaterialParameter "u_ambient") (mkEffect 1);
           glEnable GL_CULL_FACE;
           MaterialParameter_bind (mkMaterialParameter "u_diffuse") (mkEffect 1);
           glEnable GL_BLEND ]).
Proof.
  exact (proj1 (RenderState_bind_hierarchy 3 (sample_heap culling_block blending_block)
                  2%nat _ sample_pass fresh_world
                  (sample_chain culling_block blending_block) ltac:(cbn; lia))).
Defined.

(** C1 as stated fails: the parent's block sets cull face on with
    [setCullFace(true)], the child's block sets it off with
    [setCullFace(false)], and after [bind] on the child the value cached for
    cull face is on, the parent's value and not the child's; the one call
    made for cull face is [glEnable(GL_CULL_FACE)]. *)
Lemma bind_child_setCullFace_false_keeps_parent_value :
  exists w',
    RenderState_bind 3 (sample_heap (setCullFace true create) (setCullFace false create))
      2%nat sample_pass fresh_world = Returned tt w'
    /\ setting CULL_FACE (_defaultState w') = setting CULL_FACE (setCullFace true create)
    /\ setting CULL_FACE (_defaultState w') <> setting CULL_FACE (setCullFace false create)
    /\ trace w'
       = [ MaterialParameter_bind (mkMaterialParameter "u_ambient") (mkEffect 1);
           glEnable GL_CULL_FACE;
           MaterialParameter_bind (mkMaterialParameter "u_diffuse") (mkEffect 1) ].
Proof.
  exists (mkWorld (mkStateBlock true false false false BLEND_ONE BLEND_ZERO 4) []
            [ MaterialParameter_bind (mkMaterialParameter "u_ambient") (mkEffect 1);
              glEnable GL_CULL_FACE;
              MaterialParameter_bind (mkMaterialParameter "u_diffuse") (mkEffect 1) ]).
  split; [reflexivity|]. repeat split. discriminate.
Qed.

(** * Further properties *)

(** ** Further properties of the state blocks *)

(** X1: after any sequence of setter calls on a new block, a set override bit
    always stands for a field that holds a non-default value, for each of the
    five states (the converse is what fails for depth write). *)
Theorem setters_set_bit_means_non_default (cs : list SetterCall) (s : TrackedState) :
  test (_bits (fold_left perform cs create)) (mask s) = true ->
  setting s (fold_left perform cs create) <> default_setting s.
Proof.
  revert s. change (sound_bits (fold_left perform cs create)).
  assert (H : forall b, sound_bits b -> sound_bits (fold_left perform cs b)).
  { induction cs as [|c cs IH]; intros b Hb; [exact Hb|].
    cbn [fold_left]. apply IH. now apply perform_sound. }
  apply H. intros s Ht. destruct s; discriminate Ht.
Qed.

Lemma setters_set_bit_means_non_default_witness :
  setting DEPTH_WRITE (fold_left perform [call_setBlend true; call_setDepthWrite false] create)
  <> default_setting DEPTH_WRITE.
Proof.
  apply (setters_set_bit_means_non_default
           [call_setBlend true; call_setDepthWrite false] DEPTH_WRITE).
  reflexivity.
Defined.

Lemma tracks_restore b w :
  tracks (_defaultState w) -> tracks (_defaultState (restore b w)).
Proof.
  intros Ht s Hs.
  destruct (restore_spec b w) as (_ & Hset & Hbit & _). cbv zeta in Hset, Hbit.
  rewrite Hset in Hs. rewrite Hbit.
  destruct (restored b (_defaultState w) s); [now elim Hs|].
  rewrite andb_true_r. now apply Ht.
Qed.

Lemma tracks_bindNoRestore blk w :
  tracks (_defaultState w) -> tracks (_defaultState (bindNoRestore blk w)).
Proof.
  intros Ht s Hs.
  destruct (bindNoRestore_spec blk w) as (_ & Hset & Hbit & _). cbv zeta in Hset, Hbit.
  rewrite Hset in Hs. rewrite Hbit, test_lor.
  destruct (changed blk (_defaultState w) s) eqn:E.
  - unfold changed in E. apply andb_true_iff in E as [-> _]. apply orb_true_r.
  - rewrite (Ht s Hs). reflexivity.
Qed.

Lemma enableDepthWrite_spec w :
  let d := _defaultState w in
  let w' := enableDepthWrite w in
  let d' := _defaultState w' in
  trace w' = trace w ++ (if _depthWriteEnabled d then [] else [glDepthMask true])
  /\ (forall s, setting s d' = if bool_decide (s = DEPTH_WRITE) then Toggle true
                               else setting s d)
  /\ (forall s, test (_bits d') (mask s) =
                test (_bits d) (mask s)
                && (_depthWriteEnabled d || negb (bool_decide (s = DEPTH_WRITE))))
  /\ _customAutoBindingResolvers w' = _customAutoBindingResolvers w.
Proof.
  intros d w' d'. subst d' w' d. unfold enableDepthWrite.
  destruct (_depthWriteEnabled (_defaultState w)) eqn:E; cbn [negb orb].
  - rewrite app_nil_r. split; [reflexivity|]. split; [|split; [|reflexivity]].
    + intros s. destruct s; cbn; try reflexivity. now rewrite E.
    + intros s. now rewrite andb_true_r.
  - split; [reflexivity|]. split; [|split; [|reflexivity]].
    + intros s. destruct s; reflexivity.
    + intros s. cbn [_defaultState update_default emit clear_bit set_bits
                     set_depthWriteEnabled _bits].
      rewrite (test_clear _ DEPTH_WRITE s).
      now destruct s.
Qed.

Lemma tracks_enableDepthWrite w :
  (forall s, s <> DEPTH_WRITE -> setting s (_defaultState w) <> default_setting s ->
             test (_bits (_defaultState w)) (mask s) = true) ->
  tracks (_defaultState (enableDepthWrite w)).
Proof.
  intros Ht s Hs.
  destruct (enableDepthWrite_spec w) as (_ & Hset & Hbit & _). cbv zeta in Hset, Hbit.
  rewrite Hset in Hs. rewrite Hbit.
  destruct (decide (s = DEPTH_WRITE)) as [Heq|Hne].
  - rewrite (bool_decide_eq_true_2 _ Heq) in Hs. subst s. now elim Hs.
  - rewrite (bool_decide_eq_false_2 _ Hne) in Hs |- *.
    cbn. rewrite orb_true_r, andb_true_r. now apply Ht.
Qed.

Lemma tracks_default d s :
  tracks d -> test (_bits d) (mask s) = false -> setting s d = default_setting s.
Proof.
  intros Ht Hb. destruct (decide (setting s d = default_setting s)) as [H|H]; [exact H|].
  rewrite (Ht s H) in Hb. discriminate.
Qed.

Lemma restore_post b w s :
  tracks (_defaultState w) ->
  setting s (_defaultState (restore b w))
  = (if test b (mask s) then setting s (_defaultState w) else default_setting s)
  /\ test (_bits (_defaultState (restore b w))) (mask s)
     = test (_bits (_defaultState w)) (mask s) && test b (mask s).
Proof.
  intros Ht.
  destruct (restore_spec b w) as (_ & Hset & Hbit & _). cbv zeta in Hset, Hbit.
  rewrite Hset, Hbit. unfold restored.
  destruct (test b (mask s)); cbn [negb andb].
  - now rewrite andb_true_r.
  - destruct (test (_bits (_defaultState w)) (mask s)) eqn:E; [easy|].
    split; [|reflexivity]. now apply tracks_default.
Qed.

Lemma bindNoRestore_post blk w s :
  setting s (_defaultState (bindNoRestore blk w))
  = (if test (_bits blk) (mask s) then setting s blk else setting s (_defaultState w))
  /\ test (_bits (_defaultState (bindNoRestore blk w))) (mask s)
     = test (_bits (_defaultState w)) (mask s) || test (_bits blk) (mask s).
Proof.
  destruct (bindNoRestore_spec blk w) as (_ & Hset & Hbit & _). cbv zeta in Hset, Hbit.
  rewrite Hset, Hbit, test_lor. split; [|reflexivity].
  unfold changed. destruct (test (_bits blk) (mask s)); cbn [andb]; [|reflexivity].
  destruct (bool_decide_reflect (setting s blk = setting s (_defaultState w))); cbn [negb];
    congruence.
Qed.

(** X2: if every state that [_defaultState] caches with a non-default value
    has its bit set in the accumulated bits, then this still holds after
    [restore] with any mask, after [bindNoRestore] and [bind] of any block,
    and after [enableDepthWrite]. *)
Theorem singleton_tracks_preserved (stateOverrideBits : Z) (blk : StateBlock) (w : World) :
  tracks (_defaultState w) ->
  tracks (_defaultState (restore stateOverrideBits w))
  /\ tracks (_defaultState (bindNoRestore blk w))
  /\ tracks (_defaultState (StateBlock_bind blk w))
  /\ tracks (_defaultState (enableDepthWrite w)).
Proof.
  intros Ht. repeat split.
  - now apply tracks_restore.
  - now apply tracks_bindNoRestore.
  - unfold StateBlock_bind. now apply tracks_bindNoRestore, tracks_restore.
  - apply tracks_enableDepthWrite. intros s _. apply Ht.
Qed.

Lemma tracks_after_clear : tracks (_defaultState (enableDepthWrite fresh_world)).
Proof. intros s H. destruct s; now elim H. Qed.

Lemma tracks_after_sample_bind :
  tracks (_defaultState (StateBlock_bind blending_block (enableDepthWrite fresh_world))).
Proof. intros s H. destruct s; try now elim H. reflexivity. Qed.

Lemma singleton_tracks_preserved_witness :
  tracks (_defaultState (StateBlock_bind blending_block (enableDepthWrite fresh_world))).
Proof.
  exact (proj1 (proj2 (proj2 (singleton_tracks_preserved 0 blending_block
                                (enableDepthWrite fresh_world) tracks_after_clear)))).
Defined.

(** X3: when the accumulated bits cover every state cached as non-default,
    [restore] leaves each tracked state whose bit is in the mask as it was
    and leaves every other tracked state at its default; afterwards a bit is
    set exactly when it was set before and is in the mask. *)
Theorem restore_resets_unclaimed (stateOverrideBits : Z) (w : World) (s : TrackedState) :
  tracks (_defaultState w) ->
  setting s (_defaultState (restore stateOverrideBits w))
  = (if test stateOverrideBits (mask s) then setting s (_defaultState w)
     else default_setting s)
  /\ test (_bits (_defaultState (restore stateOverrideBits w))) (mask s)
     = test (_bits (_defaultState w)) (mask s) && test stateOverrideBits (mask s).
Proof. apply restore_post. Qed.

Lemma restore_resets_unclaimed_witness :
  setting BLEND (_defaultState
                   (restore 0 (StateBlock_bind blending_block
                                 (enableDepthWrite fresh_world))))
  = Toggle false.
Proof.
  exact (proj1 (restore_resets_unclaimed 0
                  (StateBlock_bind blending_block (enableDepthWrite fresh_world)) BLEND
                  tracks_after_sample_bind)).
Defined.

(** X4: when the accumulated bits cover every state cached as non-default,
    [StateBlock::bind()] leaves the cache at the block's value for every state
    the block overrides and at the default for every other state, whatever
    was bound before; the accumulated tracked bits are then exactly the
    block's. *)
Theorem StateBlock_bind_cache (blk : StateBlock) (w : World) (s : TrackedState) :
  tracks (_defaultState w) ->
  setting s (_defaultState (StateBlock_bind blk w))
  = (if test (_bits blk) (mask s) then setting s blk else default_setting s)
  /\ test (_bits (_defaultState (StateBlock_bind blk w))) (mask s)
     = test (_bits blk) (mask s).
Proof.
  intros Ht. unfold StateBlock_bind.
  destruct (bindNoRestore_post blk (restore (_bits blk) w) s) as [-> ->].
  destruct (restore_post (_bits blk) w s Ht) as [-> ->].
  destruct (test (_bits blk) (mask s)); [|now rewrite andb_false_r].
  split; [reflexivity|apply orb_true_r].
Qed.

Lemma StateBlock_bind_cache_witness :
  setting BLEND (_defaultState
                   (StateBlock_bind culling_block
                      (StateBlock_bind blending_block (enableDepthWrite fresh_world))))
  = Toggle false
  /\ setting CULL_FACE (_defaultState
                   (StateBlock_bind culling_block
                      (StateBlock_bind blending_block (enableDepthWrite fresh_world))))
     = Toggle true.
Proof.
  split.
  - exact (proj1 (StateBlock_bind_cache culling_block
                    (StateBlock_bind blending_block (enableDepthWrite fresh_world)) BLEND
                    tracks_after_sample_bind)).
  - exact (proj1 (StateBlock_bind_cache culling_block
                    (StateBlock_bind blending_block (enableDepthWrite fresh_world)) CULL_FACE
                    tracks_after_sample_bind)).
Defined.

(** X5: [enableDepthWrite] calls [glDepthMask(GL_TRUE)] exactly when depth
    write is cached as off; afterwards depth write is cached as on, the other
    four cached values are as before, the depth-write bit is cleared if the
    call was made and no other bit changes; a second call does nothing. *)
Theorem enableDepthWrite_forces_depth_write (w : World) :
  let d := _defaultState w in
  let w' := enableDepthWrite w in
  let d' := _defaultState w' in
  trace w' = trace w ++ (if _depthWriteEnabled d then [] else [glDepthMask true])
  /\ _depthWriteEnabled d' = true
  /\ (forall s, setting s d' = if bool_decide (s = DEPTH_WRITE) then Toggle true
                               else setting s d)
  /\ (forall s, test (_bits d') (mask s) =
                test (_bits d) (mask s)
                && (_depthWriteEnabled d || negb (bool_decide (s = DEPTH_WRITE))))
  /\ enableDepthWrite w' = w'.
Proof.
  intros d w' d'. destruct (enableDepthWrite_spec w) as (Ht & Hs & Hb & _).
  split; [exact Ht|]. split; [|split; [exact Hs|split; [exact Hb|]]].
  - specialize (Hs DEPTH_WRITE). cbn in Hs. now injection Hs.
  - subst d' w' d. unfold enableDepthWrite.
    destruct (_depthWriteEnabled (_defaultState w)) eqn:E; cbn [negb].
    + now rewrite E.
    + reflexivity.
Qed.

(** ** Further properties of the hierarchy *)

Lemma nearest_None s levels : nearest s levels = None <-> existsb (overrides s) levels = false.
Proof.
  induction levels as [|level levels IH]; cbn [nearest existsb]; [easy|].
  unfold overrides at 1. destruct (_state (snd level)) as [blk|]; cbn [orb]; [|exact IH].
  destruct (test (_bits blk) (mask s)); cbn [orb]; [easy|exact IH].
Qed.

Lemma bind_level_bits effect w level s :
  test (_bits (_defaultState (bind_level effect w level))) (mask s)
  = test (_bits (_defaultState w)) (mask s) || overrides s level.
Proof.
  unfold bind_level, overrides. destruct (_state (snd level)) as [blk|].
  - destruct (bindNoRestore_post blk (bindParameters (_parameters (snd level)) effect w) s)
      as [_ ->].
    now rewrite bindParameters_spec.
  - now rewrite bindParameters_spec, orb_false_r.
Qed.

Lemma bind_levels_cache effect s levels :
  forall w,
    setting s (_defaultState (fold_left (bind_level effect) (rev levels) w))
    = match nearest s levels with
      | Some blk => setting s blk
      | None => setting s (_defaultState w)
      end
    /\ test (_bits (_defaultState (fold_left (bind_level effect) (rev levels) w))) (mask s)
       = test (_bits (_defaultState w)) (mask s) || existsb (overrides s) levels.
Proof.
  induction levels as [|level levels IH]; intros w.
  - cbn. now rewrite orb_false_r.
  - cbn [rev nearest existsb]. rewrite fold_left_app. cbn [fold_left].
    destruct (IH w) as [IHs IHb]. split.
    + destruct (_state (snd level)) as [blk|] eqn:Eb.
      * destruct (test (_bits blk) (mask s)) eqn:Et.
        -- now apply (bind_level_overriding effect _ level blk s).
        -- rewrite bind_level_other; [exact IHs|]. unfold overrides. now rewrite Eb.
      * rewrite bind_level_other; [exact IHs|]. unfold overrides. now rewrite Eb.
    + rewrite bind_level_bits, IHb. rewrite <- orb_assoc. f_equal. apply orb_comm.
Qed.

(** X6: for a finite parent chain and accumulated bits that cover every
    state cached as non-default, [RenderState::bind] returns and leaves each
    tracked state at the value of the nearest level (this render state first)
    whose block overrides it, or at its default when no level overrides it;
    the accumulated tracked bits are then the union of the levels' bits, and
    they again cover every state cached as non-default. *)
Theorem RenderState_bind_cache (fuel : nat) (heap : gmap addr RenderState) (this : addr)
  (levels : list (addr * RenderState)) (pass : Pass) (w : World) :
  chain heap this levels ->
  (length levels < fuel)%nat ->
  tracks (_defaultState w) ->
  exists w',
    RenderState_bind fuel heap this pass w = Returned tt w'
    /\ (forall s, setting s (_defaultState w')
                  = match nearest s levels with
                    | Some blk => setting s blk
                    | None => default_setting s
                    end)
    /\ (forall s, test (_bits (_defaultState w')) (mask s) = existsb (overrides s) levels)
    /\ tracks (_defaultState w').
Proof.
  intros Hc Hf Ht.
  exists (fold_left (bind_level (getEffect pass)) (rev levels)
            (restore (hierarchy_bits levels) w)).
  split; [now apply RenderState_bind_chain|].
  assert (Hcache : forall s,
    setting s (_defaultState
                 (fold_left (bind_level (getEffect pass)) (rev levels)
                    (restore (hierarchy_bits levels) w)))
    = match nearest s levels with Some blk => setting s blk | None => default_setting s end
    /\ test (_bits (_defaultState
                 (fold_left (bind_level (getEffect pass)) (rev levels)
                    (restore (hierarchy_bits levels) w)))) (mask s)
       = existsb (overrides s) levels).
  { intros s.
    destruct (bind_levels_cache (getEffect pass) s levels
                (restore (hierarchy_bits levels) w)) as [-> ->].
    destruct (restore_post (hierarchy_bits levels) w s Ht) as [-> ->].
    rewrite hierarchy_bits_union. split.
    - destruct (nearest s levels) eqn:En; [reflexivity|].
      apply nearest_None in En. now rewrite En.
    - now destruct (existsb (overrides s) levels); rewrite ?andb_false_r, ?orb_true_r. }
  split; [intros s; apply Hcache|]. split; [intros s; apply Hcache|].
  intros s Hs. destruct (Hcache s) as [Hset Hbit]. rewrite Hbit. rewrite Hset in Hs.
  destruct (nearest s levels) eqn:En; [|now elim Hs].
  destruct (existsb (overrides s) levels) eqn:Ee; [reflexivity|].
  apply nearest_None in Ee. congruence.
Qed.

Lemma RenderState_bind_cache_witness :
  exists w',
    RenderState_bind 3 (sample_heap culling_block blending_block) 2%nat sample_pass
      (StateBlock_bind blending_block (enableDepthWrite fresh_world)) = Returned tt w'
    /\ setting DEPTH_TEST (_defaultState w') = Toggle false
    /\ setting CULL_FACE (_defaultState w') = setting CULL_FACE culling_block.
Proof.
  destruct (RenderState_bind_cache 3 (sample_heap culling_block blending_block) 2%nat _
              sample_pass (StateBlock_bind blending_block (enableDepthWrite fresh_world))
              (sample_chain culling_block blending_block) ltac:(cbn; lia)
              tracks_after_sample_bind) as (w' & Hr & Hs & _).
  exists w'. split; [exact Hr|]. split; [exact (Hs DEPTH_TEST)|exact (Hs CULL_FACE)].
Defined.

Lemma bindNoRestore_create w : bindNoRestore create w = w.
Proof.
  apply bindNoRestore_noop.
  - intros s. unfold changed. now destruct s.
  - apply Z.lor_0_r.
Qed.

Lemma with_block_parent r : _parent (with_block r) = _parent r.
Proof. unfold with_block, getStateBlock. now destruct (_state r). Qed.

Lemma with_block_parameters r : _parameters (with_block r) = _parameters r.
Proof. unfold with_block, getStateBlock. now destruct (_state r). Qed.

Lemma with_block_level effect w p r :
  bind_level effect w (p, with_block r) = bind_level effect w (p, r).
Proof.
  unfold with_block, getStateBlock, bind_level. cbn [snd].
  destruct (_state r) eqn:E; cbn [snd _state set_state _parameters]; rewrite ?E;
    [reflexivity|].
  apply bindNoRestore_create.
Qed.

Lemma with_block_or acc p r : or_level acc (p, with_block r) = or_level acc (p, r).
Proof.
  unfold with_block, getStateBlock, or_level. cbn [snd].
  destruct (_state r) eqn:E; cbn [snd _state set_state]; rewrite ?E; [reflexivity|].
  cbn. apply Z.lor_0_r.
Qed.

Lemma with_blocks_bits levels : hierarchy_bits (with_blocks levels) = hierarchy_bits levels.
Proof.
  destruct levels as [|[p r] levels]; [reflexivity|].
  cbn [with_blocks map hierarchy_bits fst snd].
  assert (Hl : level_bits (with_block r) = level_bits r).
  { unfold with_block, getStateBlock, level_bits.
    destruct (_state r) eqn:E; cbn [snd _state set_state]; now rewrite ?E. }
  rewrite Hl. generalize (level_bits r).
  induction levels as [|[q rq] levels IH]; intros acc; [reflexivity|].
  cbn [map fold_left fst snd]. rewrite with_block_or. apply IH.
Qed.

Lemma with_blocks_fold effect levels :
  forall w,
    fold_left (bind_level effect) (rev (with_blocks levels)) w
    = fold_left (bind_level effect) (rev levels) w.
Proof.
  induction levels as [|[p r] levels IH]; intros w; [reflexivity|].
  cbn [with_blocks map rev fst snd]. rewrite !fold_left_app. cbn [fold_left].
  fold (with_blocks levels). now rewrite IH, with_block_level.
Qed.

Lemma with_blocks_chain heap this levels :
  chain heap this levels -> chain (with_block <$> heap) this (with_blocks levels).
Proof.
  induction 1 as [p r Hp Hr|p r q rest Hp Hr Hc IH]; cbn [with_blocks map fst snd].
  - apply chain_root; [now rewrite lookup_fmap, Hp|].
    rewrite with_block_parent. exact Hr.
  - apply (chain_step _ p (with_block r) q); [now rewrite lookup_fmap, Hp| |exact IH].
    rewrite with_block_parent. exact Hr.
Qed.

(** X7: a block created lazily by [getStateBlock] changes nothing about
    binding: for a finite parent chain, [RenderState::bind] on a hierarchy in
    which [getStateBlock] has been called on every render state gives the
    same outcome as on the original hierarchy. *)
Theorem getStateBlock_keeps_bind (fuel : nat) (heap : gmap addr RenderState) (this : addr)
  (levels : list (addr * RenderState)) (pass : Pass) (w : World) :
  chain heap this levels ->
  (length levels < fuel)%nat ->
  RenderState_bind fuel (with_block <$> heap) this pass w
  = RenderState_bind fuel heap this pass w.
Proof.
  intros Hc Hf.
  rewrite (RenderState_bind_chain heap fuel this levels pass w Hc Hf).
  rewrite (RenderState_bind_chain _ fuel this (with_blocks levels) pass w
             (with_blocks_chain _ _ _ Hc)).
  - now rewrite with_blocks_bits, with_blocks_fold.
  - unfold with_blocks. now rewrite length_map.
Qed.

Lemma getStateBlock_keeps_bind_witness :
  RenderState_bind 3 (with_block <$> sample_heap culling_block blending_block) 2%nat
    sample_pass fresh_world
  = RenderState_bind 3 (sample_heap culling_block blending_block) 2%nat sample_pass
      fresh_world.
Proof.
  exact (getStateBlock_keeps_bind 3 (sample_heap culling_block blending_block) 2%nat _
           sample_pass fresh_world (sample_chain culling_block blending_block)
           ltac:(cbn; lia)).
Defined.

(** X8: for a finite parent chain from [this], [getTopmost(this)] is [NULL];
    [getTopmost(below)] for the address that starts the part of the chain
    above a level ([NULL] above the root) is that level; and
    [getTopmost(below)] for an address that is not in the chain is the root. *)
Theorem getTopmost_cases (fuel : nat) (heap : gmap addr RenderState) (this : addr)
  (levels : list (addr * RenderState)) (w : World) :
  chain heap this levels ->
  (length levels <= fuel)%nat ->
  getTopmost fuel heap this (Some this) w = Returned None w
  /\ (forall pre x rx post,
        levels = pre ++ (x, rx) :: post ->
        getTopmost fuel heap this (below_of post) w = Returned (Some x) w)
  /\ (forall pre x rx q,
        levels = pre ++ [(x, rx)] ->
        q ∉ map fst levels ->
        getTopmost fuel heap this (Some q) w = Returned (Some x) w).
Proof.
  intros Hc Hf. split; [apply getTopmost_self|]. split.
  - intros pre x rx post Heq. now apply (getTopmost_next heap fuel this levels pre x rx).
  - intros pre x rx q -> Hq. unfold getTopmost.
    destruct (chain_head _ _ _ Hc) as (r & rest & Heq & _).
    rewrite bool_decide_eq_false_2.
    + apply (getTopmost_loop_finds heap fuel (Some q) x rx [] w pre this Hc).
      * intros a ra Hin. apply list_elem_of_split in Hin as (pre1 & pre2 & ->).
        rewrite <- app_assoc in Hc. cbn [app] in Hc.
        destruct (chain_parent _ _ _ _ _ _ Hc) as [_ Hpa].
        rewrite Hpa. split.
        -- intros Hb. apply Hq. rewrite <- app_assoc. cbn [app].
           rewrite map_app. apply elem_of_app. right. cbn [map fst].
           apply list_elem_of_further.
           destruct pre2 as [|[y ry] pre2]; cbn in Hb |- *; injection Hb as <-;
             apply list_elem_of_here.
        -- now destruct pre2 as [|[y ry] pre2].
      * right. now destruct (chain_parent _ _ _ _ _ _ Hc).
      * rewrite length_app in Hf. cbn in Hf. lia.
    + intros [= <-]. apply Hq. rewrite Heq. cbn. apply list_elem_of_here.
Qed.

Lemma getTopmost_cases_witness :
  getTopmost 2 (sample_heap culling_block blending_block) 2%nat (Some 2%nat) fresh_world
  = Returned None fresh_world
  /\ getTopmost 2 (sample_heap culling_block blending_block) 2%nat None fresh_world
     = Returned (Some 1%nat) fresh_world
  /\ getTopmost 2 (sample_heap culling_block blending_block) 2%nat (Some 1%nat) fresh_world
     = Returned (Some 2%nat) fresh_world
  /\ getTopmost 2 (sample_heap culling_block blending_block) 2%nat (Some 9%nat) fresh_world
     = Returned (Some 1%nat) fresh_world.
Proof.
  pose proof (getTopmost_cases 2 (sample_heap culling_block blending_block) 2%nat _
                fresh_world (sample_chain culling_block blending_block) ltac:(cbn; lia))
    as (H1 & H2 & H3).
  split; [exact H1|]. split; [|split].
  - exact (H2 [(2%nat, sample_child blending_block)] 1%nat (sample_parent culling_block) []
              eq_refl).
  - exact (H2 [] 2%nat (sample_child blending_block)
              [(1%nat, sample_parent culling_block)] eq_refl).
  - apply (H3 [(2%nat, sample_child blending_block)] 1%nat (sample_parent culling_block)
              9%nat eq_refl).
    cbn. intros H. apply elem_of_cons in H as [H|H]; [discriminate|].
    apply elem_of_cons in H as [H|H]; [discriminate|]. inversion H.
Defined.

(** On a set of addresses closed under [_parent], the loop that collects the
    override bits exhausts every bound. *)
Lemma collectOverrideBits_endless heap (P : addr -> Prop) :
  (forall p, P p -> exists r q, heap !! p = Some r /\ _parent r = Some q /\ P q) ->
  forall fuel p acc w,
    P p -> collectOverrideBits fuel heap (Some p) acc w = OutOfFuel.
Proof.
  intros Hclosed. induction fuel as [|fuel IH]; intros p acc w Hp; [reflexivity|].
  destruct (Hclosed p Hp) as (r & q & Hr & Hq & HP).
  cbn [collectOverrideBits]. unfold andThen, deref. rewrite Hr. unfold ret. rewrite Hq.
  now apply IH.
Qed.

(** X9: when following [_parent] from [this] never reaches [NULL], the
    first loop of [RenderState::bind] never ends: whatever the bound on the
    iterations, the bound is exhausted before [restore] is reached. *)
Theorem RenderState_bind_cycle (heap : gmap addr RenderState) (P : addr -> Prop)
  (this : addr) (pass : Pass) (w : World) (fuel : nat) :
  (forall p, P p -> exists r q, heap !! p = Some r /\ _parent r = Some q /\ P q) ->
  P this ->
  RenderState_bind fuel heap this pass w = OutOfFuel.
Proof.
  intros Hclosed Hp. destruct (Hclosed this Hp) as (r & q & Hr & Hq & HP).
  unfold RenderState_bind, andThen, deref. rewrite Hr. unfold ret. rewrite Hq.
  now rewrite (collectOverrideBits_endless heap P Hclosed).
Qed.

Lemma RenderState_bind_cycle_witness :
  RenderState_bind 1000 {[ 1%nat := self_parent ]} 1%nat sample_pass fresh_world = OutOfFuel.
Proof.
  apply (RenderState_bind_cycle {[ 1%nat := self_parent ]} (fun p => p = 1%nat)).
  - intros p ->. exists self_parent, 1%nat. repeat split.
  - reflexivity.
Defined.

(** ** Parameters *)

Lemma find_parameter_existsb name ps :
  find_parameter name ps = None <-> existsb (has_name name) ps = false.
Proof.
  induction ps as [|p ps IH]; cbn [find_parameter existsb]; [easy|].
  unfold has_name at 1. destruct (String.eqb (getName p) name); cbn [orb]; [easy|exact IH].
Qed.

Lemma find_parameter_app name ps qs :
  find_parameter name (ps ++ qs) =
  match find_parameter name ps with
  | Some p => Some p
  | None => find_parameter name qs
  end.
Proof.
  induction ps as [|p ps IH]; cbn [app find_parameter]; [reflexivity|].
  now destruct (String.eqb (getName p) name).
Qed.

Lemma getParameter_spec (name : string) (this : RenderState) :
  let param := fst (getParameter name this) in
  let this' := snd (getParameter name this) in
  param = mkMaterialParameter name
  /\ _parameters this' =
     (if existsb (has_name name) (_parameters this) then _parameters this
      else _parameters this ++ [param])
  /\ find_parameter name (_parameters this') = Some param
  /\ getParameter name this' = (param, this')
  /\ _autoBindings this' = _autoBindings this
  /\ _nodeBinding this' = _nodeBinding this
  /\ _state this' = _state this
  /\ _parent this' = _parent this.
Proof.
  cbv zeta. split; [apply getParameter_fst|].
  destruct (getParameter_snd name this) as (Ha & Hn & Hs & Hp).
  assert (Hfind : find_parameter name (_parameters (snd (getParameter name this)))
                  = Some (fst (getParameter name this))).
  { unfold getParameter. destruct (find_parameter name (_parameters this)) eqn:E.
    - exact E.
    - cbn [fst snd set_parameters _parameters]. rewrite find_parameter_app, E.
      cbn. now rewrite String.eqb_refl. }
  split; [|split; [exact Hfind|split; [|now repeat split]]].
  - unfold getParameter. destruct (find_parameter name (_parameters this)) eqn:E.
    + destruct (existsb (has_name name) (_parameters this)) eqn:Ex; [reflexivity|].
      apply find_parameter_existsb in Ex. congruence.
    + apply find_parameter_existsb in E. now rewrite E.
  - unfold getParameter at 1. rewrite Hfind. now destruct (getParameter name this).
Qed.

(** X10: [getParameter] returns the parameter of the requested name; the
    list of parameters is unchanged when a parameter of that name exists and
    gets the new parameter appended otherwise; a second call for the same
    name returns the same parameter and changes nothing; no other field of
    the render state changes. *)
Theorem getParameter_finds_or_appends (name : string) (this : RenderState) :
  let param := fst (getParameter name this) in
  let this' := snd (getParameter name this) in
  param = mkMaterialParameter name
  /\ _parameters this' =
     (if existsb (has_name name) (_parameters this) then _parameters this
      else _parameters this ++ [param])
  /\ find_parameter name (_parameters this') = Some param
  /\ getParameter name this' = (param, this')
  /\ _autoBindings this' = _autoBindings this
  /\ _nodeBinding this' = _nodeBinding this
  /\ _state this' = _state this
  /\ _parent this' = _parent this.
Proof. apply getParameter_spec. Qed.

Lemma existsb_has_name name ps :
  existsb (has_name name) ps = false -> name ∉ map getName ps.
Proof.
  induction ps as [|p ps IH]; cbn [existsb map]; intros H Hin.
  - inversion Hin.
  - apply orb_false_iff in H as [Hp Hps]. apply elem_of_cons in Hin as [->|Hin].
    + unfold has_name in Hp. now rewrite String.eqb_refl in Hp.
    + now apply IH.
Qed.

(** X11: [getParameter] never introduces a duplicate: if the names of the
    parameters are pairwise different before the call, they are after it. *)
Theorem getParameter_unique_names (name : string) (this : RenderState) :
  NoDup (map getName (_parameters this)) ->
  NoDup (map getName (_parameters (snd (getParameter name this)))).
Proof.
  intros Hnd. destruct (getParameter_spec name this) as (Hp & -> & _).
  destruct (existsb (has_name name) (_parameters this)) eqn:E; [exact Hnd|].
  rewrite map_app. apply NoDup_app. split; [exact Hnd|]. split.
  - intros x Hx Hin. rewrite Hp in Hin. cbn in Hin.
    apply elem_of_cons in Hin as [->|Hin]; [|inversion Hin].
    now apply (existsb_has_name name (_parameters this) E).
  - apply NoDup_singleton.
Qed.

Lemma getParameter_unique_names_witness :
  NoDup (map getName (_parameters (snd (getParameter "u_diffuse"
                                            (sample_parent culling_block))))).
Proof.
  apply getParameter_unique_names. cbn. apply NoDup_singleton.
Defined.

(** ** Resolvers and node bindings *)

Lemma first_handler_app resolvers cb autoBinding node param :
  first_handler (resolvers ++ [cb]) autoBinding node param =
  match first_handler resolvers autoBinding node param with
  | Some k => Some k
  | None => if cb autoBinding node param then Some (length resolvers) else None
  end.
Proof.
  induction resolvers as [|r rest IH]; cbn [app first_handler length].
  - now destruct (cb autoBinding node param).
  - destruct (r autoBinding node param); [reflexivity|]. rewrite IH.
    destruct (first_handler rest autoBinding node param); [reflexivity|].
    now destruct (cb autoBinding node param).
Qed.

Lemma consulted_S n autoBinding node param :
  consulted 0 (S n) autoBinding node param =
  consulted 0 n autoBinding node param ++ [ResolverCalled n autoBinding node param].
Proof. unfold consulted. now rewrite seq_S, map_app. Qed.

(** X12: a resolver registered later is consulted after all resolvers
    registered before it: when one of the earlier resolvers handles a
    binding, the new resolver is not called; otherwise it is called last, and
    built-in resolution runs only if it declines too. *)
Theorem registered_resolver_comes_last (callback : ResolveAutoBindingCallback)
  (uniformName autoBinding : string) (this : RenderState) (node : Node) (w : World) :
  _nodeBinding this = Some node ->
  let param := mkMaterialParameter uniformName in
  let resolvers := _customAutoBindingResolvers w in
  let w1 := registerAutoBindingResolver callback w in
  _customAutoBindingResolvers w1 = resolvers ++ [callback]
  /\ applyAutoBinding uniformName (Some autoBinding) this w1 =
     Returned (snd (getParameter uniformName this))
       (append_events
          (match first_handler resolvers (Some autoBinding) (Some node) param with
           | Some k => consulted 0 (S k) (Some autoBinding) (Some node) param
           | None =>
               consulted 0 (length resolvers) (Some autoBinding) (Some node) param
               ++ [ResolverCalled (length resolvers) (Some autoBinding) (Some node) param]
               ++ (if callback (Some autoBinding) (Some node) param then []
                   else builtin_events node param autoBinding)
           end)
          w1).
Proof.
  intros Hn param resolvers w1. subst w1 resolvers param. split; [reflexivity|].
  rewrite (applyAutoBinding_spec _ _ _ node) by exact Hn.
  unfold resolution_events. cbn [registerAutoBindingResolver _customAutoBindingResolvers].
  rewrite first_handler_app.
  destruct (first_handler _ _ _ _); [reflexivity|].
  destruct (callback _ _ _).
  - now rewrite consulted_S, app_nil_r.
  - rewrite length_app. cbn [length]. rewrite Nat.add_1_r, consulted_S.
    now rewrite <- app_assoc.
Qed.

Lemma registered_resolver_comes_last_witness :
  applyAutoBinding "u_time" (Some "TIME") bound_state
    (registerAutoBindingResolver (fun _ _ _ => true)
       (registerAutoBindingResolver time_resolver fresh_world))
  = Returned (snd (getParameter "u_time" bound_state))
      (append_events
         [ResolverCalled 0 (Some "TIME") (Some sample_node) (mkMaterialParameter "u_time")]
         (registerAutoBindingResolver (fun _ _ _ => true)
            (registerAutoBindingResolver time_resolver fresh_world))).
Proof.
  exact (proj2 (registered_resolver_comes_last (fun _ _ _ => true) "u_time" "TIME"
                  bound_state sample_node
                  (registerAutoBindingResolver time_resolver fresh_world) eq_refl)).
Defined.

Lemma with_parameters_frame entries :
  forall this,
    _autoBindings (with_parameters entries this) = _autoBindings this
    /\ _nodeBinding (with_parameters entries this) = _nodeBinding this
    /\ _state (with_parameters entries this) = _state this
    /\ _parent (with_parameters entries this) = _parent this.
Proof.
  induction entries as [|itr rest IH]; intros this; [easy|].
  cbn [with_parameters fold_left].
  fold (with_parameters rest (snd (getParameter (fst itr) this))).
  destruct (IH (snd (getParameter (fst itr) this))) as (-> & -> & -> & ->).
  apply getParameter_snd.
Qed.

(** X13: [setNodeBinding] always returns; afterwards the node binding is
    the given node, and the recorded auto-bindings, the state block and the
    parent are as before; nothing is resolved when the node is the current
    one or is [NULL]; binding the same node again right away does nothing. *)
Theorem setNodeBinding_frame (node : option Node) (this : RenderState) (w : World) :
  exists this' events,
    setNodeBinding node this w = Returned this' (append_events events w)
    /\ _nodeBinding this' = node
    /\ _autoBindings this' = _autoBindings this
    /\ _state this' = _state this
    /\ _parent this' = _parent this
    /\ (_nodeBinding this = node -> this' = this /\ events = [])
    /\ (node = None -> events = [])
    /\ setNodeBinding node this' (append_events events w)
       = Returned this' (append_events events w).
Proof.
  assert (Hsame : forall r v, _nodeBinding r = node ->
                              setNodeBinding node r v = Returned r v).
  { intros r v Hr. unfold setNodeBinding.
    rewrite bool_decide_eq_false_2 by (intros H; now apply H). reflexivity. }
  destruct (decide (_nodeBinding this = node)) as [Heq|Hne].
  - exists this, []. rewrite append_events_nil. rewrite (Hsame this w Heq).
    split; [reflexivity|]. split; [exact Heq|]. do 3 (split; [reflexivity|]).
    split; [now split|]. split; [reflexivity|]. reflexivity.
  - destruct node as [n|].
    + exists (with_parameters (iterate (_autoBindings this)) (set_nodeBinding (Some n) this)),
        (flat_map (fun itr => resolution_events (_customAutoBindingResolvers w) n
                                (fst itr) (snd itr)) (iterate (_autoBindings this))).
      destruct (with_parameters_frame (iterate (_autoBindings this))
                  (set_nodeBinding (Some n) this)) as (Ha & Hn & Hs & Hp).
      split.
      { unfold setNodeBinding. rewrite bool_decide_eq_true_2 by exact Hne.
        cbn [_nodeBinding set_nodeBinding]. now rewrite (applyAutoBindings_spec n). }
      split; [exact Hn|]. split; [exact Ha|]. split; [exact Hs|]. split; [exact Hp|].
      split; [intros; contradiction|]. split; [discriminate|].
      now apply Hsame.
    + exists (set_nodeBinding None this), []. rewrite append_events_nil. split.
      { unfold setNodeBinding. now rewrite bool_decide_eq_true_2 by exact Hne. }
      do 4 (split; [reflexivity|]). split; [intros; contradiction|].
      split; [reflexivity|]. now apply Hsame.
Qed.

(** ** Recording auto-bindings *)

(** X14: [setParameterAutoBinding] with a non-null auto-binding always
    returns; afterwards the map holds the auto-binding under the name
    (overwriting an earlier one) and every other name as before, the node
    binding is unchanged, and nothing is resolved when no node is attached. *)
Theorem setParameterAutoBinding_records (name autoBinding : string) (this : RenderState)
  (w : World) :
  exists this' events,
    setParameterAutoBinding name (Some autoBinding) this w
    = Returned this' (append_events events w)
    /\ _autoBindings this' = <[name := autoBinding]> (_autoBindings this)
    /\ _autoBindings this' !! name = Some autoBinding
    /\ (forall other, other <> name ->
                      _autoBindings this' !! other = _autoBindings this !! other)
    /\ _nodeBinding this' = _nodeBinding this
    /\ (_nodeBinding this = None -> events = []).
Proof.
  assert (Hmap : forall m : gmap string string,
             <[name := autoBinding]> m !! name = Some autoBinding
             /\ forall other, other <> name -> <[name := autoBinding]> m !! other = m !! other).
  { intros m. split; [apply lookup_insert_eq|].
    intros other Hne. apply lookup_insert_ne. congruence. }
  destruct (_nodeBinding this) as [node|] eqn:En.
  - exists (snd (getParameter name
                   (set_autoBindings (<[name := autoBinding]> (_autoBindings this)) this))),
      (resolution_events (_customAutoBindingResolvers w) node name autoBinding).
    split.
    { rewrite setParameterAutoBinding_Some. rewrite En.
      now rewrite (applyAutoBinding_spec _ _ _ node). }
    destruct (getParameter_snd name
                (set_autoBindings (<[name := autoBinding]> (_autoBindings this)) this))
      as (Ha & Hn & _).
    cbv zeta in Ha, Hn. rewrite Ha, Hn. cbn [_autoBindings _nodeBinding set_autoBindings].
    destruct (Hmap (_autoBindings this)) as [H1 H2].
    repeat split; try assumption. discriminate.
  - exists (set_autoBindings (<[name := autoBinding]> (_autoBindings this)) this), [].
    rewrite append_events_nil. split.
    { rewrite setParameterAutoBinding_Some. now rewrite En. }
    cbn [_autoBindings _nodeBinding set_autoBindings].
    destruct (Hmap (_autoBindings this)) as [H1 H2].
    repeat split; assumption.
Qed.



(** ** Cloning *)

Lemma cloneAutoBindings_detached entries :
  forall target w,
    _nodeBinding target = None ->
    cloneAutoBindings entries target w
    = Returned (set_autoBindings
                  (fold_left (fun m it => <[fst it := snd it]> m) entries
                             (_autoBindings target)) target) w.
Proof.
  induction entries as [|it rest IH]; intros target w Hn.
  - cbn. unfold ret. now destruct target.
  - cbn [cloneAutoBindings fold_left]. unfold andThen.
    rewrite setParameterAutoBinding_Some, Hn.
    rewrite IH by exact Hn. reflexivity.
Qed.

Lemma fold_insert_union (entries : list (string * string)) :
  NoDup (map fst entries) ->
  forall m0 : gmap string string,
    fold_left (fun m it => <[fst it := snd it]> m) entries m0 = list_to_map entries ∪ m0.
Proof.
  induction entries as [|[k v] rest IH]; intros Hnd m0; cbn [fold_left list_to_map foldr].
  - now rewrite (left_id_L ∅ (∪)).
  - apply NoDup_cons in Hnd as [Hk Hnd]. rewrite (IH Hnd). cbn [fst snd].
    rewrite <- insert_union_l. symmetry. apply insert_union_r.
    now apply not_elem_of_list_to_map_1.
Qed.

Lemma iterate_union (m m0 : gmap string string) :
  fold_left (fun acc it => <[fst it := snd it]> acc) (iterate m) m0 = m ∪ m0.
Proof.
  destruct (iterate_entries m) as (Hperm & Hnd & _).
  rewrite (fold_insert_union _ Hnd). f_equal.
  rewrite (list_to_map_proper _ _ Hnd Hperm). apply list_to_map_to_list.
Qed.

Lemma cloneParameters_app parameters :
  forall target,
    cloneParameters parameters target
    = set_parameters (_parameters target ++ parameters) target.
Proof.
  induction parameters as [|[name] rest IH]; intros target; cbn [cloneParameters getName].
  - rewrite app_nil_r. now destruct target.
  - rewrite IH. cbn [_parameters set_parameters]. now rewrite <- app_assoc.
Qed.

(** X16: [cloneInto] a target with no node attached returns and resolves
    nothing; the target gets the source's entries added to its map (the
    source's winning), copies of the source's parameters appended to its own,
    the source's parent and, if the source has one, the source's block; its
    node binding stays [NULL].  Cloning into a new render state gives the
    source without its node binding. *)
Theorem cloneInto_detached (this target : RenderState) (w : World) :
  _nodeBinding target = None ->
  cloneInto this target w
  = Returned (mkRenderState (_parameters target ++ _parameters this)
                (_autoBindings this ∪ _autoBindings target)
                None
                (match _state this with Some state => Some state | None => _state target end)
                (_parent this)) w
  /\ cloneInto this RenderState_new w = Returned (set_nodeBinding None this) w.
Proof.
  assert (H : forall tgt, _nodeBinding tgt = None ->
    cloneInto this tgt w
    = Returned (mkRenderState (_parameters tgt ++ _parameters this)
                  (_autoBindings this ∪ _autoBindings tgt)
                  None
                  (match _state this with Some state => Some state | None => _state tgt end)
                  (_parent this)) w).
  { intros tgt Hn. unfold cloneInto, andThen.
    rewrite cloneAutoBindings_detached by exact Hn. rewrite iterate_union.
    rewrite cloneParameters_app. unfold ret. f_equal.
    destruct tgt as [ps m n st pa]. cbn in Hn. subst n.
    cbn [set_parameters set_autoBindings set_parent _parameters _autoBindings _nodeBinding
         _state _parent].
    destruct (_state this) as [s|]; [|reflexivity].
    unfold setStateBlock, set_state.
    cbn [set_parameters set_autoBindings set_parent _parameters _autoBindings _nodeBinding
         _state _parent].
    case_bool_decide as Hd; [reflexivity|].
    destruct (decide (st = Some s)) as [->|Hne]; [reflexivity|contradiction]. }
  intros Hn. split; [now apply H|].
  rewrite H by reflexivity. f_equal. destruct this as [ps m n st pa].
  cbn [RenderState_new _parameters _autoBindings _state _parent set_nodeBinding
       _nodeBinding app].
  rewrite (right_id_L ∅ (∪)). now destruct st.
Qed.

Lemma cloneInto_detached_witness :
  cloneInto bound_state RenderState_new fresh_world
  = Returned (set_nodeBinding None bound_state) fresh_world.
Proof.
  exact (proj2 (cloneInto_detached bound_state RenderState_new fresh_world eq_refl)).
Defined.

(** ** The enumeration overload and the built-in names *)

Lemma builtin_events_no_warning node param (a : AutoBinding) :
  a <> NONE -> a <> WORLD_MATRIX ->
  ~ (GP_WARN "Unsupported auto binding type (%d)."
     ∈ builtin_events node param (AutoBinding_name a)).
Proof.
  intros H1 H2 Hin. destruct a; try contradiction; cbn in Hin.
  all: try (apply elem_of_cons in Hin as [Hin|Hin]; [discriminate|inversion Hin]).
  destruct (skin_of node); [|inversion Hin].
  apply elem_of_cons in Hin as [Hin|Hin]; [discriminate|inversion Hin].
Qed.

Lemma consulted_no_warning i n autoBinding node param msg :
  ~ (GP_WARN msg ∈ consulted i n autoBinding node param).
Proof.
  unfold consulted. intros Hin. apply list_elem_of_fmap in Hin as (j & Hj & _).
  discriminate.
Qed.

(** X17: with a node attached, the enumeration overload called with any
    constant other than [NONE] and [WORLD_MATRIX] returns, records the
    spelled-out name and never reports the unsupported-auto-binding warning;
    with no custom resolver registered it does exactly what built-in
    resolution does for that name. *)
Theorem enum_overload_recognised (name : string) (a : AutoBinding) (this : RenderState)
  (node : Node) (w : World) :
  a <> NONE -> a <> WORLD_MATRIX ->
  _nodeBinding this = Some node ->
  exists this' events,
    setParameterAutoBinding_enum name a this w = Returned this' (append_events events w)
    /\ _autoBindings this' = <[name := AutoBinding_name a]> (_autoBindings this)
    /\ ~ (GP_WARN "Unsupported auto binding type (%d)." ∈ events)
    /\ (_customAutoBindingResolvers w = [] ->
        events = builtin_events node (mkMaterialParameter name) (AutoBinding_name a)).
Proof.
  intros H1 H2 Hn.
  exists (snd (getParameter name
                 (set_autoBindings (<[name := AutoBinding_name a]> (_autoBindings this)) this))),
    (resolution_events (_customAutoBindingResolvers w) node name (AutoBinding_name a)).
  split.
  { rewrite enum_overload_agrees by assumption.
    rewrite setParameterAutoBinding_Some. rewrite Hn.
    now rewrite (applyAutoBinding_spec _ _ _ node). }
  split.
  { destruct (getParameter_snd name
                (set_autoBindings (<[name := AutoBinding_name a]> (_autoBindings this)) this))
      as (Ha & _). exact Ha. }
  split.
  - unfold resolution_events. destruct (first_handler _ _ _ _).
    + apply consulted_no_warning.
    + intros Hin. apply elem_of_app in Hin as [Hin|Hin].
      * now apply consulted_no_warning in Hin.
      * now apply (builtin_events_no_warning node (mkMaterialParameter name) a H1 H2).
  - intros Hr. unfold resolution_events. now rewrite Hr.
Qed.

Lemma enum_overload_recognised_witness :
  exists this' events,
    setParameterAutoBinding_enum "u_view" VIEW_MATRIX bound_state fresh_world
    = Returned this' (append_events events fresh_world)
    /\ events = [MaterialParameter_bindValue (mkMaterialParameter "u_view")
                   (NodeMethod (Some sample_node) getViewMatrix)].
Proof.
  destruct (enum_overload_recognised "u_view" VIEW_MATRIX bound_state sample_node fresh_world
              ltac:(discriminate) ltac:(discriminate) eq_refl)
    as (this' & events & Hr & _ & _ & He).
  exists this', events. split; [exact Hr|]. exact (He eq_refl).
Defined.

(** ** Parsing *)

(** X18: [parseBlend] only ever yields one of the nine factors that have a
    name in its vocabulary (never one of the four colour factors of the
    enumeration), and a value whose upper-cased spelling is the name of a
    factor parses to that factor without any report. *)
Theorem parseBlend_names (value : string) (w : World) :
  is_Some (blend_name (fst (parseBlend value w)))
  /\ (forall b, blend_name b = Some (transform toupper value) ->
                parseBlend value w = (b, w))
  /\ (forall b, blend_name b = Some (transform toupper value) <->
                table_lookup (transform toupper value) blend_vocabulary = Some b).
Proof.
  assert (Hiff : forall b, blend_name b = Some (transform toupper value) <->
                table_lookup (transform toupper value) blend_vocabulary = Some b).
  { intros b. generalize (transform toupper value). intros u. split.
    - intros Hb. destruct b; cbn in Hb; try discriminate; injection Hb as <-; reflexivity.
    - cbn [table_lookup blend_vocabulary].
      repeat match goal with
             | |- context [String.eqb u ?key] =>
                 destruct (String.eqb_spec u key) as [->|_]; [now intros [= <-]|]
             end.
      intros H. discriminate H. }
  split; [|split; [|exact Hiff]].
  - rewrite parseBlend_table.
    destruct (table_lookup (transform toupper value) blend_vocabulary) as [b|] eqn:E.
    + cbn [fst]. rewrite (proj2 (Hiff b) eq_refl). now eexists.
    + cbn. now eexists.
  - intros b Hb. apply Hiff in Hb. now rewrite parseBlend_table, Hb.
Qed.

(** ** [setState] and the override bits *)

Lemma configure_perform k value this w :
  exists c, fst (configure k value this w) = perform this c /\ governs c = governed k.
Proof.
  destruct k; cbn [configure fst].
  - now exists (call_setBlend (parseBoolean value)).
  - now exists (call_setBlendSrc (fst (parseBlend value w))).
  - now exists (call_setBlendDst (fst (parseBlend value w))).
  - now exists (call_setCullFace (parseBoolean value)).
  - now exists (call_setDepthTest (parseBoolean value)).
  - now exists (call_setDepthWrite (parseBoolean value)).
Qed.

Lemma setState_lookup name value this w :
  setState name value this w =
  match table_lookup name state_vocabulary with
  | Some k => configure k value this w
  | None => (this, report_error "Unsupported render state string '%s'." w)
  end.
Proof.
  unfold setState. cbn [table_lookup state_vocabulary].
  destruct (String.eqb name "blend"); [reflexivity|].
  destruct (String.eqb name "blendSrc"); cbn [orb configure];
    [now destruct (parseBlend value w)|].
  destruct (String.eqb name "srcBlend"); cbn [orb configure];
    [now destruct (parseBlend value w)|].
  destruct (String.eqb name "blendDst"); cbn [orb configure];
    [now destruct (parseBlend value w)|].
  destruct (String.eqb name "dstBlend"); cbn [orb configure];
    [now destruct (parseBlend value w)|].
  repeat (destruct (String.eqb name _); [reflexivity|]).
  reflexivity.
Qed.

(** X19: [setState] with a recognised name leaves the override bit of the
    state the name governs set exactly when that field holds a non-default
    value, leaves the fields and bits of the other four states as they were,
    and keeps every set bit standing for a non-default value. *)
Theorem setState_touches_one_state (name value : string) (k : StateName)
  (this : StateBlock) (w : World) :
  table_lookup name state_vocabulary = Some k ->
  let this' := fst (setState name value this w) in
  bit_reflects (governed k) this'
  /\ (forall s, s <> governed k ->
                setting s this' = setting s this
                /\ test (_bits this') (mask s) = test (_bits this) (mask s))
  /\ (sound_bits this -> sound_bits this').
Proof.
  intros Hk this'. subst this'. rewrite setState_lookup, Hk.
  destruct (configure_perform k value this w) as (c & -> & Hg).
  rewrite <- Hg. split; [apply perform_governed|]. split.
  - intros s Hs. apply perform_other. congruence.
  - apply perform_sound.
Qed.

Lemma setState_touches_one_state_witness :
  bit_reflects DEPTH_WRITE (fst (setState "depthWrite" "false" create fresh_world)).
Proof.
  exact (proj1 (setState_touches_one_state "depthWrite" "false" name_depthWrite create
                  fresh_world eq_refl)).
Defined.

(** ** A null auto-binding in [applyAutoBinding] *)

(** X20: [applyAutoBinding] with a null auto-binding hands the null pointer
    to the registered resolvers in order; it returns if one of them handles
    it, with nothing else done, and otherwise, after all of them were called,
    it reads the null pointer in [strcmp] (undefined behaviour). *)
Theorem applyAutoBinding_null (uniformName : string) (this : RenderState) (w : World) :
  let param := mkMaterialParameter uniformName in
  let resolvers := _customAutoBindingResolvers w in
  applyAutoBinding uniformName None this w =
  match first_handler resolvers None (_nodeBinding this) param with
  | Some k =>
      Returned (snd (getParameter uniformName this))
        (append_events (consulted 0 (S k) None (_nodeBinding this) param) w)
  | None =>
      Fault (append_events (consulted 0 (length resolvers) None (_nodeBinding this) param) w)
  end.
Proof.
  cbv zeta. unfold applyAutoBinding.
  pose proof (getParameter_fst uniformName this) as Hp.
  destruct (getParameter_snd uniformName this) as (_ & Hn & _).
  destruct (getParameter uniformName this) as [param this']. cbn [fst snd] in *.
  subst param. rewrite Hn. rewrite callResolvers_spec.
  now destruct (first_handler _ _ _ _).
Qed.
